(** * notpy-interpreter: the evaluator (eval.py) and the tokenizer (lexer.py)

    A shallow embedding of the two source files and the properties of
    their documented behaviour.

    - Python's [Fraction] is [Qc], the rationals in lowest terms, so that
      [==] on fractions is Leibniz equality.
    - A [dict] used as an environment is a [gmap string Value].  The
      namespace is mutated in place by the source; here it is threaded
      through every call and returned next to the outcome, also when the
      call raises, since an exception does not undo earlier writes.
    - [while] may not terminate: [eval_ast] takes fuel and answers
      [OutOfFuel] when it is used up.
    - Source text is a [string] of 8-bit characters; the character tests
      [isdigit] and [isalpha] are the ASCII ones. *)

From Stdlib Require Import ZArith QArith Qcanon String Ascii List Lia.
From stdpp Require Import gmap strings.

Open Scope string_scope.

(** ** Values and Python's operators on them *)

(** [Value = Fraction | bool | str] *)
Inductive Value : Type :=
| VFraction (q : Qc)
| VBool (b : bool)
| VStr (s : string).

(** The exceptions the two files can raise.  [Exception] carries the
    message given at the raise site; the others are the built-in classes
    raised by Python's own operators. *)
Inductive PyError : Type :=
| Exception (msg : string)
| TypeError
| ZeroDivisionError
| ValueError
| OverflowError
| AssertionError
| EndOfTokens
| TokenError.

Definition VariableNotDefined : PyError := Exception "Variable not defined".
Definition DivisionByZero : PyError := Exception "Division by zero".

(** [ProgramNotSupported()] *)
Definition ProgramNotSupported : PyError :=
  Exception "Program not supported, it may be in the future versions of the language".

Definition zero : Value := VFraction (Q2Qc 0).

(** [bool(v)] *)
Definition truthy (v : Value) : bool :=
  match v with
  | VFraction q => negb (bool_decide (q = Q2Qc 0))
  | VBool b => b
  | VStr s => negb (String.eqb s "")
  end.

(** A [bool] is an [int] in arithmetic and comparisons. *)
Definition as_number (v : Value) : option Qc :=
  match v with
  | VFraction q => Some q
  | VBool true => Some (Q2Qc 1)
  | VBool false => Some (Q2Qc 0)
  | VStr _ => None
  end.

(** [a == b] *)
Definition py_eq (a b : Value) : bool :=
  match as_number a, as_number b with
  | Some x, Some y => bool_decide (x = y)
  | None, None =>
      match a, b with
      | VStr s, VStr t => String.eqb s t
      | _, _ => false
      end
  | _, _ => false
  end.

(** [a < b]: numbers by value, strings lexicographically, anything else
    is a [TypeError]. *)
Definition py_lt (a b : Value) : PyError + Value :=
  match as_number a, as_number b with
  | Some x, Some y => inr (VBool (bool_decide (x < y)%Qc))
  | None, None =>
      match a, b with
      | VStr s, VStr t => inr (VBool (String.ltb s t))
      | _, _ => inl TypeError
      end
  | _, _ => inl TypeError
  end.

(** [Fraction.__pow__] for an exponent with denominator 1. *)
Definition pow_int (x : Qc) (p : Z) : PyError + Qc :=
  if (0 <=? p)%Z then inr (Qcpower x (Z.to_nat p))
  else if bool_decide (x = Q2Qc 0) then inl ZeroDivisionError
  else inr (Qcpower (/ x)%Qc (Z.to_nat (- p))).

(** [s[start:stop:hop]] on a string, after CPython's index adjustment:
    out-of-range bounds are clamped, a negative bound counts from the
    end, and a zero step is a [ValueError]. *)
Definition adjust_index (len i step : Z) : Z :=
  if (i <? 0)%Z then
    (if (i + len <? 0)%Z then (if (step <? 0)%Z then -1 else 0) else i + len)%Z
  else if (len <=? i)%Z then (if (step <? 0)%Z then len - 1 else len)%Z
  else i.

Definition slice_length (start stop step : Z) : Z :=
  if (step <? 0)%Z then
    (if (stop <? start)%Z then (start - stop - 1) / (- step) + 1 else 0)%Z
  else
    (if (start <? stop)%Z then (stop - start - 1) / step + 1 else 0)%Z.

Definition py_slice (s : string) (start stop hop : Z) : PyError + string :=
  if (hop =? 0)%Z then inl ValueError
  else
    let len := Z.of_nat (String.length s) in
    let lo := adjust_index len start hop in
    let hi := adjust_index len stop hop in
    let pick (i : nat) :=
      match String.get (Z.to_nat (lo + Z.of_nat i * hop)) s with
      | Some c => String c EmptyString
      | None => EmptyString
      end in
    inr (String.concat "" (map pick (seq 0 (Z.to_nat (slice_length lo hi hop))))).

(** ** The syntax tree *)

(** [string_operation] keeps its operands untyped in the source: a list
    for [concat], a single node for [slice]. *)
#[warnings="-register-all"] Inductive AST : Type :=
| numeric_literal (value : Qc)
| bool_literal (value : bool)
| string_literal (value : string)
| binary_operation (operator : string) (left right : AST)
| string_operation (operator : string) (operands : Operands) (start stop hop : Z)
| let_var (name : string)
| let_ (variable : string) (e1 e2 : AST)
| mut_var (name : string)
| get (variable : string)
| set (variable : string) (value : AST)
| if_statement (condition if_exp else_exp : AST)
| while_loop (condition body : AST)
| block (exps : list AST)
with Operands : Type :=
| operand_list (string_list : list AST)
| operand_node (e : AST).

(** What a call of the evaluator does. *)
Inductive Outcome : Type :=
| Return (v : Value)
| Raise (e : PyError)
| OutOfFuel.

Definition of_result (r : PyError + Value) : Outcome :=
  match r with
  | inl e => Raise e
  | inr v => Return v
  end.

(** [for i in local_namespace: if i in name_space: name_space[i] = local_namespace[i]] *)
Definition merge_back (local_namespace name_space : gmap string Value)
  : gmap string Value :=
  map_fold (fun i v acc => if decide (is_Some (acc !! i)) then <[i := v]> acc else acc)
           name_space local_namespace.

Section Evaluator.

(** Two conversions of Python's [fractions] module are left abstract:
    [Fraction(s)] for a string [s], and [Fraction(float(a) ** float(b))],
    which [Fraction.__pow__] falls back to when the exponent is not an
    integer. *)
Variable Fraction_of_str : string -> PyError + Qc.
Variable Fraction_of_float_pow : Qc -> Qc -> PyError + Qc.

Definition wrap_fraction (r : PyError + Qc) : PyError + Value :=
  match r with
  | inl e => inl e
  | inr q => inr (VFraction q)
  end.

(** [Fraction(a + b)] *)
Definition py_add (a b : Value) : PyError + Value :=
  match as_number a, as_number b with
  | Some x, Some y => inr (VFraction (x + y)%Qc)
  | None, None =>
      match a, b with
      | VStr s, VStr t => wrap_fraction (Fraction_of_str (s ++ t))
      | _, _ => inl TypeError
      end
  | _, _ => inl TypeError
  end.

(** [Fraction(a - b)] *)
Definition py_sub (a b : Value) : PyError + Value :=
  match as_number a, as_number b with
  | Some x, Some y => inr (VFraction (x - y)%Qc)
  | _, _ => inl TypeError
  end.

(** [Fraction(a * b)]; a string times a [bool] is a repetition. *)
Definition py_mul (a b : Value) : PyError + Value :=
  match a, b with
  | VStr s, VBool n | VBool n, VStr s =>
      wrap_fraction (Fraction_of_str (if n then s else ""))
  | _, _ =>
      match as_number a, as_number b with
      | Some x, Some y => inr (VFraction (x * y)%Qc)
      | _, _ => inl TypeError
      end
  end.

(** [Fraction(a / b)] *)
Definition py_div (a b : Value) : PyError + Value :=
  match as_number a, as_number b with
  | Some x, Some y =>
      if bool_decide (y = Q2Qc 0) then inl ZeroDivisionError
      else inr (VFraction (x / y)%Qc)
  | _, _ => inl TypeError
  end.

(** [Fraction(a ** b)] *)
Definition py_pow (a b : Value) : PyError + Value :=
  match as_number a, as_number b with
  | Some x, Some y =>
      if (Qden y =? 1)%positive then wrap_fraction (pow_int x (Qnum y))
      else wrap_fraction (Fraction_of_float_pow x y)
  | _, _ => inl TypeError
  end.

(** [final_string += v] *)
Definition py_concat (final_string : string) (v : Value) : PyError + string :=
  match v with
  | VStr s => inr (final_string ++ s)
  | _ => inl TypeError
  end.

Abbreviation env := (gmap string Value).
Abbreviation evaluator := (AST -> env -> env -> Outcome * env).

(** Both operands under the same scope, left then right, the second
    seeing the writes of the first. *)
Definition eval_operands (ev : evaluator) (left right : AST)
    (lexical_scope name_space : env) (k : Value -> Value -> PyError + Value)
  : Outcome * env :=
  match ev left lexical_scope name_space with
  | (Return a, ns1) =>
      match ev right lexical_scope ns1 with
      | (Return b, ns2) => (of_result (k a b), ns2)
      | r => r
      end
  | r => r
  end.

(** [for exp in exps: eval_ast(exp, lexical_scope, local_namespace)];
    [None] when the loop ran to its end. *)
Fixpoint eval_exps (ev : evaluator) (exps : list AST)
    (lexical_scope local_namespace : env) : option Outcome * env :=
  match exps with
  | [] => (None, local_namespace)
  | exp :: rest =>
      match ev exp lexical_scope local_namespace with
      | (Return _, ns1) => eval_exps ev rest lexical_scope ns1
      | (o, ns1) => (Some o, ns1)
      end
  end.

(** [for i in string_list: final_string += eval_ast(i, ...)] *)
Fixpoint eval_concat (ev : evaluator) (string_list : list AST)
    (final_string : string) (lexical_scope name_space : env) : Outcome * env :=
  match string_list with
  | [] => (Return (VStr final_string), name_space)
  | i :: rest =>
      match ev i lexical_scope name_space with
      | (Return v, ns1) =>
          match py_concat final_string v with
          | inr s => eval_concat ev rest s lexical_scope ns1
          | inl e => (Raise e, ns1)
          end
      | r => r
      end
  end.

Fixpoint eval_ast (fuel : nat) (subprogram : AST)
    (lexical_scope name_space : env) {struct fuel} : Outcome * env :=
  match fuel with
  | O => (OutOfFuel, name_space)
  | S fuel' =>
      let ev := eval_ast fuel' in
      let both := eval_operands ev in
      match subprogram with
      | let_var name =>
          match lexical_scope !! name with
          | Some v => (Return v, name_space)
          | None => (Raise VariableNotDefined, name_space)
          end
      | let_ variable e1 e2 =>
          match ev e1 lexical_scope name_space with
          | (Return temp, ns1) => ev e2 (<[variable := temp]> lexical_scope) ns1
          | r => r
          end
      | mut_var name | get name =>
          match name_space !! name with
          | Some v => (Return v, name_space)
          | None => (Raise VariableNotDefined, name_space)
          end
      | set variable value =>
          match ev value lexical_scope name_space with
          | (Return temp, ns1) => (Return zero, <[variable := temp]> ns1)
          | r => r
          end
      | numeric_literal value => (Return (VFraction value), name_space)
      | bool_literal value => (Return (VBool value), name_space)
      | string_literal value => (Return (VStr value), name_space)
      | binary_operation operator left_ right_ =>
          if String.eqb operator "+" then
            both left_ right_ lexical_scope name_space py_add
          else if String.eqb operator "-" then
            both left_ right_ lexical_scope name_space py_sub
          else if String.eqb operator "*" then
            both left_ right_ lexical_scope name_space py_mul
          else if String.eqb operator "/" then
            match ev right_ ∅ ∅ with
            | (Return d, _) =>
                if py_eq d zero then (Raise DivisionByZero, name_space)
                else both left_ right_ lexical_scope name_space py_div
            | (o, _) => (o, name_space)
            end
          else if String.eqb operator "**" then
            both left_ right_ lexical_scope name_space py_pow
          else if String.eqb operator "==" then
            both left_ right_ lexical_scope name_space
                 (fun a b => inr (VBool (py_eq a b)))
          else if String.eqb operator "!=" then
            both left_ right_ lexical_scope name_space
                 (fun a b => inr (VBool (negb (py_eq a b))))
          else if String.eqb operator "<" then
            both left_ right_ lexical_scope name_space py_lt
          else if String.eqb operator ">" then
            both left_ right_ lexical_scope name_space (fun a b => py_lt b a)
          else if String.eqb operator "&&" then
            match ev left_ lexical_scope name_space with
            | (Return a, ns1) =>
                if truthy a then
                  match ev right_ lexical_scope ns1 with
                  | (Return b, ns2) => (Return (VBool (truthy b)), ns2)
                  | r => r
                  end
                else (Return (VBool false), ns1)
            | r => r
            end
          else if String.eqb operator "||" then
            match ev left_ lexical_scope name_space with
            | (Return a, ns1) =>
                if truthy a then (Return (VBool true), ns1)
                else
                  match ev right_ lexical_scope ns1 with
                  | (Return b, ns2) => (Return (VBool (truthy b)), ns2)
                  | r => r
                  end
            | r => r
            end
          else (Raise ProgramNotSupported, name_space)
      | if_statement condition if_exp else_exp =>
          match ev condition lexical_scope name_space with
          | (Return c, ns1) =>
              if truthy c then ev if_exp lexical_scope ns1
              else ev else_exp lexical_scope ns1
          | r => r
          end
      | while_loop condition body =>
          match ev condition lexical_scope name_space with
          | (Return c, ns1) =>
              if truthy c then
                match ev body lexical_scope ns1 with
                | (Return _, ns2) =>
                    ev (while_loop condition body) lexical_scope ns2
                | r => r
                end
              else (Return zero, ns1)
          | r => r
          end
      | block exps =>
          match eval_exps ev exps lexical_scope name_space with
          | (None, local_namespace) =>
              (Return zero, merge_back local_namespace name_space)
          | (Some o, _) => (o, name_space)
          end
      | string_operation operator operands start stop hop =>
          if String.eqb operator "concat" then
            match operands with
            | operand_list string_list =>
                eval_concat ev string_list "" lexical_scope name_space
            | operand_node _ => (Raise TypeError, name_space)
            end
          else if String.eqb operator "slice" then
            match operands with
            | operand_node string =>
                match ev string lexical_scope name_space with
                | (Return (VStr final_string), ns1) =>
                    match py_slice final_string start stop hop with
                    | inr s => (Return (VStr s), ns1)
                    | inl e => (Raise e, ns1)
                    end
                | (Return _, ns1) => (Raise TypeError, ns1)
                | r => r
                end
            | operand_list _ => (Raise ProgramNotSupported, name_space)
            end
          else (Raise ProgramNotSupported, name_space)
      end
  end.

End Evaluator.

(** ** The tokenizer *)

(** [Stream]: the source text and the position of the next unread
    character. *)
Record Stream : Type := { source : string; pos : nat }.

Definition streamFromString (s : string) : Stream := {| source := s; pos := 0 |}.

(** [next_char]: [String.get] answers [None] exactly when
    [pos >= len(source)]. *)
Definition next_char (self : Stream) : PyError + ascii * Stream :=
  match String.get (pos self) (source self) with
  | None => inl EndOfTokens
  | Some c => inr (c, {| source := source self; pos := pos self + 1 |})
  end.

(** [prev_char]; a failed [assert] raises [AssertionError]. *)
Definition prev_char (self : Stream) : PyError + Stream :=
  if (0 <? pos self)%nat then inr {| source := source self; pos := pos self - 1 |}
  else inl AssertionError.

Inductive TokenType : Type :=
| Num (n : Z)
| Keyword (word : string)
| Identifier (word : string)
| String_ (s : string)
| Operator (op : string)
| EndOfLine (EOL : string).

#[global] Instance TokenType_eq_dec : EqDecision TokenType.
Proof. solve_decision. Defined.

Definition keywords : list string :=
  ["print"; "var"; "true"; "false"; "print"; "if"; "else"; "then"; "for";
   "while"; "return"; "end"; "do"; "List"; "let"; "in"].

Definition operators : list string :=
  [","; "."; ";"; "+"; "-"; "*"; "%"; ">"; "<"; ">="; "<="; "=="; "!"; "!=";
   "**"; "^"; "("; ")"; "["; "]"; "="].

Definition word_operators : string := "and or not".

Definition tab : ascii := ascii_of_nat 9.
Definition newline : ascii := ascii_of_nat 10.
Definition dquote : ascii := ascii_of_nat 34.

Definition white_space : string := String " " (String tab (String newline "")).

(** [c in s] for a one-character [c] and a string [s] *)
Fixpoint char_in (c : ascii) (s : string) : bool :=
  match s with
  | EmptyString => false
  | String d rest => Ascii.eqb c d || char_in c rest
  end.

Definition str (c : ascii) : string := String c "".

Definition isdigit (c : ascii) : bool :=
  (48 <=? nat_of_ascii c)%nat && (nat_of_ascii c <=? 57)%nat.

Definition isalpha (c : ascii) : bool :=
  ((65 <=? nat_of_ascii c)%nat && (nat_of_ascii c <=? 90)%nat)
  || ((97 <=? nat_of_ascii c)%nat && (nat_of_ascii c <=? 122)%nat).

(** [int(c)] for a digit *)
Definition int (c : ascii) : Z := Z.of_nat (nat_of_ascii c) - 48.

(** The tokenizer object: the stream it reads and the one saved token. *)
Record lexer : Type := { stream : Stream; save : option TokenType }.

Definition lexerFromStream (s : Stream) : lexer := {| stream := s; save := None |}.

(** What a method of the tokenizer does: it returns with the object in a
    new state, raises with the object in the state reached, or the model
    ran out of fuel. *)
Inductive Result (A : Type) : Type :=
| Got (a : A) (self : lexer)
| Fail (e : PyError) (self : lexer)
| NoFuel.
Arguments Got {A} a self.
Arguments Fail {A} e self.
Arguments NoFuel {A}.

Definition with_stream (self : lexer) (s : Stream) : lexer :=
  {| stream := s; save := save self |}.

(** [self.stream.next_char()] and [self.stream.prev_char()] *)
Definition read (self : lexer) : Result ascii :=
  match next_char (stream self) with
  | inl e => Fail e self
  | inr (c, s) => Got c (with_stream self s)
  end.

Definition unread (self : lexer) : Result unit :=
  match prev_char (stream self) with
  | inl e => Fail e self
  | inr s => Got tt (with_stream self s)
  end.

(** [number]: on [EndOfTokens] the digits read so far are the token. *)
Fixpoint number_loop (fuel : nat) (self : lexer) (n : Z) : Result TokenType :=
  match fuel with
  | O => NoFuel
  | S fuel' =>
      match read self with
      | Got c self1 =>
          if isdigit c then number_loop fuel' self1 (n * 10 + int c)
          else
            match unread self1 with
            | Got _ self2 => Got (Num n) self2
            | Fail EndOfTokens self2 => Got (Num n) self2
            | Fail e self2 => Fail e self2
            | NoFuel => NoFuel
            end
      | Fail EndOfTokens self1 => Got (Num n) self1
      | Fail e self1 => Fail e self1
      | NoFuel => NoFuel
      end
  end.

Definition number (fuel : nat) (self : lexer) (c : ascii) : Result TokenType :=
  number_loop fuel self (int c).

Definition classify (word : string) : TokenType :=
  if bool_decide (word ∈ keywords) then Keyword word else Identifier word.

Fixpoint identifier_loop (fuel : nat) (self : lexer) (word : string)
  : Result TokenType :=
  match fuel with
  | O => NoFuel
  | S fuel' =>
      match read self with
      | Got c self1 =>
          if isalpha c then identifier_loop fuel' self1 (word ++ str c)
          else
            match unread self1 with
            | Got _ self2 => Got (classify word) self2
            | Fail EndOfTokens self2 => Got (classify word) self2
            | Fail e self2 => Fail e self2
            | NoFuel => NoFuel
            end
      | Fail EndOfTokens self1 => Got (classify word) self1
      | Fail e self1 => Fail e self1
      | NoFuel => NoFuel
      end
  end.

Definition identifier (fuel : nat) (self : lexer) (c : ascii) : Result TokenType :=
  identifier_loop fuel self (str c).

(** [string]: its handler turns [EndOfTokens] into [EndOfTokens]. *)
Fixpoint string_loop (fuel : nat) (self : lexer) (s : string) : Result TokenType :=
  match fuel with
  | O => NoFuel
  | S fuel' =>
      match read self with
      | Got c self1 =>
          if Ascii.eqb c dquote then Got (String_ s) self1
          else string_loop fuel' self1 (s ++ str c)
      | Fail EndOfTokens self1 => Fail EndOfTokens self1
      | Fail e self1 => Fail e self1
      | NoFuel => NoFuel
      end
  end.

Definition string_ (fuel : nat) (self : lexer) : Result TokenType :=
  string_loop fuel self "".

(** One branch of [operator]: read one more character; [two] if it is
    [second], else push it back and answer [one]. *)
Definition lookahead (self : lexer) (second : ascii) (two one : string)
  : Result TokenType :=
  match read self with
  | Got c self1 =>
      if Ascii.eqb c second then Got (Operator two) self1
      else
        match unread self1 with
        | Got _ self2 => Got (Operator one) self2
        | Fail e self2 => Fail e self2
        | NoFuel => NoFuel
        end
  | Fail e self1 => Fail e self1
  | NoFuel => NoFuel
  end.

Definition operator (self : lexer) (c : ascii) : Result TokenType :=
  if Ascii.eqb c "=" then lookahead self "=" "==" "="
  else if Ascii.eqb c "!" then lookahead self "=" "!=" "!"
  else if Ascii.eqb c ">" then lookahead self "=" ">=" ">"
  else if Ascii.eqb c "<" then lookahead self "=" "<=" "<"
  else if Ascii.eqb c "&" then lookahead self "&" "and" "&"
  else if Ascii.eqb c "|" then lookahead self "|" "or" "|"
  else if Ascii.eqb c "^" then lookahead self "^" "**" "^"
  else Got (Operator (str c)) self.

Definition some_token (r : Result TokenType) : Result (option TokenType) :=
  match r with
  | Got t self => Got (Some t) self
  | Fail e self => Fail e self
  | NoFuel => NoFuel
  end.

(** [next_token]: a character that no [case] accepts falls out of the
    [match] statement, and the method returns [None]. *)
Fixpoint next_token (fuel : nat) (self : lexer) : Result (option TokenType) :=
  match fuel with
  | O => NoFuel
  | S fuel' =>
      match read self with
      | Got c self1 =>
          if bool_decide (str c ∈ operators) then some_token (operator self1 c)
          else if isdigit c then some_token (number fuel' self1 c)
          else if isalpha c then some_token (identifier fuel' self1 c)
          else if Ascii.eqb c dquote then some_token (string_ fuel' self1)
          else if char_in c white_space then next_token fuel' self1
          else Got None self1
      | Fail e self1 => Fail e self1
      | NoFuel => NoFuel
      end
  end.

Definition with_save (self : lexer) (t : option TokenType) : lexer :=
  {| stream := stream self; save := t |}.

Definition peek_token (fuel : nat) (self : lexer) : Result (option TokenType) :=
  match save self with
  | Some t => Got (Some t) self
  | None =>
      match next_token fuel self with
      | Got t self1 => Got t (with_save self1 t)
      | Fail EndOfTokens self1 => Got None self1
      | Fail e self1 => Fail e self1
      | NoFuel => NoFuel
      end
  end.

Definition advance (fuel : nat) (self : lexer) : Result unit :=
  match save self with
  | Some _ => Got tt (with_save self None)
  | None =>
      match peek_token fuel self with
      | Got (Some _) self1 =>
          match next_token fuel self1 with
          | Got _ self2 => Got tt self2
          | Fail e self2 => Fail e self2
          | NoFuel => NoFuel
          end
      | Got None self1 => Fail EndOfTokens self1
      | Fail e self1 => Fail e self1
      | NoFuel => NoFuel
      end
  end.

(** [match(expected)] *)
Definition match_ (fuel : nat) (self : lexer) (expected : TokenType) : Result unit :=
  match peek_token fuel self with
  | Got t self1 =>
      if bool_decide (t = Some expected) then advance fuel self1
      else Fail TokenError self1
  | Fail e self1 => Fail e self1
  | NoFuel => NoFuel
  end.

(** [for token in l]: [__next__] until it raises [StopIteration], which
    is what it makes of [EndOfTokens]. *)
Fixpoint tokens (fuel : nat) (self : lexer) : Result (list (option TokenType)) :=
  match fuel with
  | O => NoFuel
  | S fuel' =>
      match next_token fuel' self with
      | Got t self1 =>
          match tokens fuel' self1 with
          | Got ts self2 => Got (t :: ts) self2
          | r => r
          end
      | Fail EndOfTokens self1 => Got [] self1
      | Fail e self1 => Fail e self1
      | NoFuel => NoFuel
      end
  end.

(** ** Programs and inputs of the source's tests, and of the runs below *)

(** Instances of the two abstract conversions for closed runs; none of
    the programs run below reaches either. *)
Definition no_Fraction_of_str : string -> PyError + Qc := fun _ => inl ValueError.
Definition no_Fraction_of_float_pow : Qc -> Qc -> PyError + Qc :=
  fun _ _ => inl OverflowError.

(** [numeric_literal(n)] for an integer [n] *)
Definition num (n : Z) : AST := numeric_literal (Q2Qc (inject_Z n)).

Definition fraction (n : Z) : Value := VFraction (Q2Qc (inject_Z n)).

(** [test6]: the condition, the body and the loop of the factorial. *)
Definition factorial_condition : AST := binary_operation "<" (get "i") (num 10).
Definition factorial_body : AST :=
  block [set "i" (binary_operation "+" (get "i") (num 1));
         set "j" (binary_operation "*" (get "j") (get "i"))].
Definition factorial_loop : AST := while_loop factorial_condition factorial_body.

(** A tokenizer on a source text, nothing read and nothing saved. *)
Definition fresh (s : string) : lexer := lexerFromStream (streamFromString s).

Definition lexing_test1 : string := "if 22 >= 33 then 5+3 else 8*3 end;".

(** The evaluator on the two instances above. *)
Abbreviation eval0 := (eval_ast no_Fraction_of_str no_Fraction_of_float_pow).

(** Relations between evaluators, as the loops of [eval_ast] take the
    evaluator of their elements as an argument: [keeps_keys ev] when no
    call of [ev] removes a key of the namespace, and [extends ev ev'] when
    [ev'] gives every answer of [ev] that is not [OutOfFuel]. *)
Definition keeps_keys
    (ev : AST -> gmap string Value -> gmap string Value -> Outcome * gmap string Value)
  : Prop :=
  forall e ls ns o ns' k,
    ev e ls ns = (o, ns') -> is_Some (ns !! k) -> is_Some (ns' !! k).

Definition extends
    (ev ev' : AST -> gmap string Value -> gmap string Value -> Outcome * gmap string Value)
  : Prop :=
  forall e ls ns o ns',
    ev e ls ns = (o, ns') -> o <> OutOfFuel -> ev' e ls ns = (o, ns').

(** The tokenizer that has read the first [String.length pre] characters
    of [pre ++ rest], and the tokenizer at the end of the text [s]. *)
Definition reading (pre rest : string) (saved : option TokenType) : lexer :=
  {| stream := {| source := pre ++ rest; pos := String.length pre |};
     save := saved |}.

Definition at_end (s : string) (saved : option TokenType) : lexer :=
  {| stream := {| source := s; pos := String.length s |}; save := saved |}.

(** [self1] is [self] further along the same text: the text and the saved
    token are those of [self], and the position has neither moved back nor
    left the text. *)
Definition follows (self self1 : lexer) : Prop :=
  source (stream self1) = source (stream self)
  /\ save self1 = save self
  /\ pos (stream self) <= pos (stream self1) <= String.length (source (stream self)).

(** The number of characters left to read. *)
Definition remaining (self : lexer) : nat :=
  String.length (source (stream self)) - pos (stream self).


(** Every character of [s] passes the test [p]; and whether [s] begins
    with a character that passes it. *)
Fixpoint all_chars (p : ascii -> bool) (s : string) : bool :=
  match s with
  | EmptyString => true
  | String c s' => p c && all_chars p s'
  end.


(** [set_free e]: no [set] node occurs in [e]. *)
Fixpoint set_free (e : AST) : bool :=
  match e with
  | numeric_literal _ | bool_literal _ | string_literal _
  | let_var _ | mut_var _ | get _ => true
  | set _ _ => false
  | binary_operation _ l r => set_free l && set_free r
  | string_operation _ operands _ _ _ =>
      match operands with
      | operand_list string_list => forallb set_free string_list
      | operand_node e1 => set_free e1
      end
  | let_ _ e1 e2 => set_free e1 && set_free e2
  | if_statement c a b => set_free c && set_free a && set_free b
  | while_loop c b => set_free c && set_free b
  | block exps => forallb set_free exps
  end.

(** Two more relations on evaluators: [read_only ev] when [ev] leaves the
    namespace as it is on expressions without [set], and [weakens ev] when
    a value returned under a scope and a namespace is returned under any
    larger ones, with a larger namespace left behind. *)
Definition read_only
    (ev : AST -> gmap string Value -> gmap string Value -> Outcome * gmap string Value)
  : Prop :=
  forall e ls ns, set_free e = true -> snd (ev e ls ns) = ns.

Definition weakens
    (ev : AST -> gmap string Value -> gmap string Value -> Outcome * gmap string Value)
  : Prop :=
  forall e (ls ls' ns ns' : gmap string Value) v ns1,
    ls ⊆ ls' -> ns ⊆ ns' ->
    ev e ls ns = (Return v, ns1) ->
    exists ns1', ev e ls' ns' = (Return v, ns1') /\ ns1 ⊆ ns1'.

(** The operators that [eval_ast] has a case for. *)
Definition binary_operators : list string :=
  ["+"; "-"; "*"; "/"; "**"; "=="; "!="; "<"; ">"; "&&"; "||"].

Definition string_operators : list string := ["concat"; "slice"].

(** * Properties of the evaluator *)

Lemma merge_back_lookup (local_namespace name_space : gmap string Value) (k : string) :
  merge_back local_namespace name_space !! k =
    match name_space !! k with
    | Some v0 => Some (default v0 (local_namespace !! k))
    | None => None
    end.
Proof.
  unfold merge_back. revert k.
  apply (map_fold_weak_ind (fun r (m : gmap string Value) => forall k,
    r !! k = match name_space !! k with
             | Some v0 => Some (default v0 (m !! k))
             | None => None
             end)).
  - intros k. rewrite lookup_empty. simpl. by destruct (name_space !! k).
  - intros i x m r Hi IH k.
    destruct (decide (i = k)) as [->|Hne].
    + rewrite lookup_insert_eq. specialize (IH k). rewrite Hi in IH. simpl in *.
      case_decide as Hs.
      * rewrite lookup_insert_eq. destruct (name_space !! k); [done|].
        rewrite IH in Hs. by destruct Hs.
      * rewrite IH in *. destruct (name_space !! k); [|done].
        destruct Hs. eauto.
    + rewrite (lookup_insert_ne m) by done. rewrite <- IH.
      case_decide; [by rewrite lookup_insert_ne|done].
Qed.

Section EvaluatorFacts.
Variable Fraction_of_str : string -> PyError + Qc.
Variable Fraction_of_float_pow : Qc -> Qc -> PyError + Qc.
Abbreviation env := (gmap string Value).
Abbreviation eval := (eval_ast Fraction_of_str Fraction_of_float_pow).

Lemma eval_operands_keeps ev l r ls ns f o ns' k :
  keeps_keys ev ->
  eval_operands ev l r ls ns f = (o, ns') ->
  is_Some (ns !! k) -> is_Some (ns' !! k).
Proof.
  intros Hev H Hk. unfold eval_operands in H.
  destruct (ev l ls ns) as [ol ns1] eqn:El.
  pose proof (Hev _ _ _ _ _ k El Hk) as H1.
  destruct ol; simplify_eq; try done.
  destruct (ev r ls ns1) as [or ns2] eqn:Er.
  pose proof (Hev _ _ _ _ _ k Er H1) as H2.
  destruct or; simplify_eq; done.
Qed.

Lemma eval_exps_keeps ev exps ls ns o ns' k :
  keeps_keys ev ->
  eval_exps ev exps ls ns = (o, ns') ->
  is_Some (ns !! k) -> is_Some (ns' !! k).
Proof.
  intros Hev. revert ns. induction exps as [|exp rest IH]; intros ns H Hk; simpl in H.
  - by simplify_eq.
  - destruct (ev exp ls ns) as [oe ns1] eqn:Ee.
    pose proof (Hev _ _ _ _ _ k Ee Hk) as H1.
    destruct oe; simplify_eq; eauto.
Qed.

Lemma eval_concat_keeps ev l s ls ns o ns' k :
  keeps_keys ev ->
  eval_concat ev l s ls ns = (o, ns') ->
  is_Some (ns !! k) -> is_Some (ns' !! k).
Proof.
  intros Hev. revert s ns. induction l as [|i rest IH]; intros s ns H Hk; simpl in H.
  - by simplify_eq.
  - destruct (ev i ls ns) as [oe ns1] eqn:Ee.
    pose proof (Hev _ _ _ _ _ k Ee Hk) as H1.
    destruct oe; simplify_eq; eauto.
    destruct (py_concat s v); simplify_eq; eauto.
Qed.

Lemma merge_back_keeps local ns k :
  is_Some (ns !! k) -> is_Some (merge_back local ns !! k).
Proof. intros [v Hv]. rewrite merge_back_lookup, Hv. eauto. Qed.

Lemma eval_ast_keeps_keys fuel : keeps_keys (eval fuel).
Proof.
  induction fuel as [|fuel IH]; intros e ls ns o ns' k H Hk.
  - simpl in H. by simplify_eq.
  - destruct e; simpl in H;
      repeat lazymatch type of H with
      | eval_operands _ _ _ _ _ _ = _ =>
          apply (eval_operands_keeps _ _ _ _ _ _ _ _ k IH H Hk)
      | eval_concat _ _ _ _ _ = _ =>
          apply (eval_concat_keeps _ _ _ _ _ _ _ k IH H Hk)
      | (match ?x with _ => _ end) = _ =>
          lazymatch x with
          | eval_ast _ _ _ _ _ ?ns0 =>
              let E := fresh "E" in
              destruct x as [? ?] eqn:E;
              try (lazymatch type of E with
                   | _ = (_, ?n) =>
                       assert (is_Some (n !! k))
                         by (eapply IH; [exact E | assumption])
                   end)
          | eval_exps _ _ _ _ =>
              let E := fresh "E" in
              destruct x as [[?|] ?ns1] eqn:E;
              pose proof (eval_exps_keeps _ _ _ _ _ _ k IH E Hk)
          | _ => destruct x eqn:?
          end
      | (_, _) = _ => simplify_eq
      | _ => eapply IH; [exact H | assumption]
      end;
      try apply merge_back_keeps; try done.
    rewrite lookup_insert_is_Some'. by right.
Qed.

Lemma of_result_fuel r : of_result r <> OutOfFuel.
Proof. by destruct r. Qed.

Lemma eval_operands_extends ev ev' l r ls ns f o ns' :
  extends ev ev' ->
  eval_operands ev l r ls ns f = (o, ns') -> o <> OutOfFuel ->
  eval_operands ev' l r ls ns f = (o, ns').
Proof.
  intros Hev H Ho. unfold eval_operands in *.
  destruct (ev l ls ns) as [ol ns1] eqn:El.
  destruct ol; simplify_eq; try (rewrite (Hev _ _ _ _ _ El); done).
  rewrite (Hev _ _ _ _ _ El) by done.
  destruct (ev r ls ns1) as [or ns2] eqn:Er.
  destruct or; simplify_eq; rewrite (Hev _ _ _ _ _ Er); done.
Qed.

Lemma eval_exps_extends ev ev' exps ls ns o ns' :
  extends ev ev' ->
  eval_exps ev exps ls ns = (o, ns') -> o <> Some OutOfFuel ->
  eval_exps ev' exps ls ns = (o, ns').
Proof.
  intros Hev. revert ns. induction exps as [|exp rest IH]; intros ns H Ho; simpl in *.
  - done.
  - destruct (ev exp ls ns) as [oe ns1] eqn:Ee.
    destruct oe; simplify_eq; rewrite (Hev _ _ _ _ _ Ee); eauto; congruence.
Qed.

Lemma eval_concat_extends ev ev' l s ls ns o ns' :
  extends ev ev' ->
  eval_concat ev l s ls ns = (o, ns') -> o <> OutOfFuel ->
  eval_concat ev' l s ls ns = (o, ns').
Proof.
  intros Hev. revert s ns. induction l as [|i rest IH]; intros s ns H Ho; simpl in *.
  - done.
  - destruct (ev i ls ns) as [oe ns1] eqn:Ee.
    destruct oe; simplify_eq; rewrite (Hev _ _ _ _ _ Ee); try done.
    destruct (py_concat s v); simplify_eq; eauto.
Qed.

Lemma eval_ast_extends_step fuel m :
  extends (eval fuel) (eval m) -> extends (eval (S fuel)) (eval (S m)).
Proof.
  intros IH e ls ns o ns' H Ho.
  destruct e; simpl in H |- *;
    repeat lazymatch type of H with
    | eval_operands _ _ _ _ _ _ = _ =>
        apply (eval_operands_extends _ _ _ _ _ _ _ _ _ IH H Ho)
    | eval_concat _ _ _ _ _ = _ =>
        apply (eval_concat_extends _ _ _ _ _ _ _ _ IH H Ho)
    | (match ?x with _ => _ end) = _ =>
        lazymatch x with
        | eval_ast _ _ _ _ _ _ =>
            let E := fresh "E" in
            destruct x as [[?| |] ?] eqn:E;
            [ rewrite (IH _ _ _ _ _ E) by done
            | rewrite (IH _ _ _ _ _ E) by done
            | by simplify_eq ]
        | eval_exps _ _ _ _ =>
            let E := fresh "E" in
            destruct x as [[[?| |]|] ?] eqn:E;
            [ rewrite (eval_exps_extends _ _ _ _ _ _ _ IH E) by done
            | rewrite (eval_exps_extends _ _ _ _ _ _ _ IH E) by done
            | by simplify_eq
            | rewrite (eval_exps_extends _ _ _ _ _ _ _ IH E) by done ]
        | _ => destruct x eqn:?
        end
    | (_, _) = _ => simplify_eq
    | _ => apply (IH _ _ _ _ _ H Ho)
    end; try done.
Qed.

Lemma eval_ast_extends fuel : extends (eval fuel) (eval (S fuel)).
Proof.
  induction fuel as [|fuel IH].
  - intros e ls ns o ns' H Ho. simpl in H. by simplify_eq.
  - by apply eval_ast_extends_step.
Qed.

Lemma eval_ast_fuel_mono fuel fuel' e ls ns o ns' :
  eval fuel e ls ns = (o, ns') -> o <> OutOfFuel -> fuel <= fuel' ->
  eval fuel' e ls ns = (o, ns').
Proof.
  intros H Ho Hle. induction Hle as [|m _ IH]; [done|].
  by apply eval_ast_extends.
Qed.

(** *** Logical operators *)

(** C1 (amended): for [&&] and [||] the left operand is evaluated
    first, and the right operand is evaluated, in the namespace the
    left one left behind, only when the left value does not settle the
    result: when the left operand of [&&] is falsy, or the left operand
    of [||] is truthy, the answer is the boolean of the left value and
    the namespace is the one after the left operand, whatever the right
    operand is. *)
Theorem logical_operators_short_circuit
    (fuel : nat) (l r : AST) (ls ns : env) (a : Value) (ns1 : env) :
  eval fuel l ls ns = (Return a, ns1) ->
  let right_then :=
    match eval fuel r ls ns1 with
    | (Return b, ns2) => (Return (VBool (truthy b)), ns2)
    | res => res
    end in
  (truthy a = false ->
     eval (S fuel) (binary_operation "&&" l r) ls ns = (Return (VBool false), ns1)
     /\ eval (S fuel) (binary_operation "||" l r) ls ns = right_then)
  /\ (truthy a = true ->
     eval (S fuel) (binary_operation "||" l r) ls ns = (Return (VBool true), ns1)
     /\ eval (S fuel) (binary_operation "&&" l r) ls ns = right_then).
Proof.
  intros Hl right_then. subst right_then.
  split; intros Ha; split; simpl; rewrite Hl, Ha; try reflexivity;
    destruct (eval fuel r ls ns1) as [[?| |] ?]; reflexivity.
Qed.

(** *** Division *)

(** C3: dividing a numeric literal [a] by a numeric literal [b] other
    than zero returns the fraction [a / b], which is exact, since
    multiplying it by [b] gives [a] back; dividing by the literal zero
    raises the "Division by zero" exception.  The namespace is left as
    it was. *)
Theorem division_of_literals_exact
    (fuel : nat) (a b : Qc) (ls ns : env) :
  b <> 0%Qc ->
  eval (S (S fuel)) (binary_operation "/" (numeric_literal a) (numeric_literal b))
       ls ns = (Return (VFraction (a / b)%Qc), ns)
  /\ (b * (a / b) = a)%Qc
  /\ eval (S (S fuel)) (binary_operation "/" (numeric_literal a) (numeric_literal 0%Qc))
       ls ns = (Raise DivisionByZero, ns).
Proof.
  intros Hb. split; [|split].
  - cbn. unfold py_eq, py_div. cbn.
    rewrite !(bool_decide_eq_false_2 (b = Q2Qc 0)) by done. reflexivity.
  - by apply Qcmult_div_r.
  - reflexivity.
Qed.

(** C4: a division evaluates its divisor twice.  The first evaluation
    runs under an empty lexical scope and an empty namespace, its writes
    are dropped, and its outcome [o] alone decides the zero test: an
    error there is the error of the division, and a value equal to zero
    raises "Division by zero", in both cases with the namespace untouched
    and nothing evaluated under the actual environment.  Only past that
    test are the dividend and, a second time, the divisor evaluated under
    the actual scope and namespace, and the quotient is taken from the
    values [a] and [b] of these. *)
Theorem division_evaluates_divisor_twice
    (fuel : nat) (l r : AST) (ls ns : env) (o : Outcome) (ns0 : env) :
  eval fuel r ∅ ∅ = (o, ns0) ->
  let division := eval (S fuel) (binary_operation "/" l r) ls ns in
  (forall e, o = Raise e -> division = (Raise e, ns))
  /\ (forall d, o = Return d -> py_eq d zero = true ->
        division = (Raise DivisionByZero, ns))
  /\ (forall d a b ns1 ns2,
        o = Return d -> py_eq d zero = false ->
        eval fuel l ls ns = (Return a, ns1) ->
        eval fuel r ls ns1 = (Return b, ns2) ->
        division = (of_result (py_div a b), ns2)).
Proof.
  intros H0 division. subst division. simpl. rewrite H0.
  split; [|split].
  - by intros e ->.
  - by intros d -> ->.
  - intros d a b ns1 ns2 -> -> Hl Hr. unfold eval_operands. by rewrite Hl, Hr.
Qed.

(** *** Blocks *)

(** C2: when the expressions of a block, run in order on a copy of the
    namespace [N], end with the copy in state [local], the block
    returns zero and leaves a namespace [N'] in which every key of [N]
    holds the value it has in [local], and in which every key absent
    from [N] is absent, so that reading it raises "Variable not
    defined". *)
Theorem block_merges_existing_keys_only
    (fuel : nat) (exps : list AST) (ls N local : env) :
  eval_exps (eval fuel) exps ls N = (None, local) ->
  exists N',
    eval (S fuel) (block exps) ls N = (Return zero, N')
    /\ (forall k, is_Some (N !! k) ->
          is_Some (N' !! k) /\ N' !! k = local !! k)
    /\ (forall k fuel', N !! k = None ->
          N' !! k = None
          /\ eval (S fuel') (get k) ls N' = (Raise VariableNotDefined, N')).
Proof.
  intros Hexps. exists (merge_back local N). split; [|split].
  - simpl. by rewrite Hexps.
  - intros k Hk.
    destruct (eval_exps_keeps _ _ _ _ _ _ k (eval_ast_keeps_keys fuel) Hexps Hk)
      as [v Hv].
    destruct Hk as [v0 Hv0].
    rewrite merge_back_lookup, Hv0, Hv. simpl. eauto.
  - intros k fuel' Hk.
    assert (merge_back local N !! k = None) as Hnone
      by (by rewrite merge_back_lookup, Hk).
    split; [done|]. simpl. by rewrite Hnone.
Qed.

(** C10: when an expression of a block raises, the block raises that
    error and leaves the namespace [N] it was given exactly as it was,
    whatever was written to the local copy before the error; and a block
    raises in no other way. *)
Theorem block_error_leaves_namespace
    (fuel : nat) (exps : list AST) (ls N : env) (e : PyError) :
  (forall local,
      eval_exps (eval fuel) exps ls N = (Some (Raise e), local) ->
      eval (S fuel) (block exps) ls N = (Raise e, N))
  /\ (forall N',
      eval (S fuel) (block exps) ls N = (Raise e, N') ->
      N' = N
      /\ exists local, eval_exps (eval fuel) exps ls N = (Some (Raise e), local)).
Proof.
  split.
  - intros local H. simpl. by rewrite H.
  - intros N'. simpl.
    destruct (eval_exps (eval fuel) exps ls N) as [[o|] local]; [|done].
    intros ?; simplify_eq. eauto.
Qed.

(** *** The factorial of [test6] *)

(** C8: from the empty namespace, [set(i, 1)] and [set(j, 1)] and then
    the loop [while i < 10: {i = i + 1; j = j * i}] return zero each,
    and [get(j)] on the namespace they leave returns 3628800; any fuel
    from 14 on is enough for the loop. *)
Theorem factorial_round_trip (fuel : nat) :
  exists ns1 ns2 ns3,
    eval (2 + fuel) (set "i" (num 1)) ∅ ∅ = (Return zero, ns1)
    /\ eval (2 + fuel) (set "j" (num 1)) ∅ ns1 = (Return zero, ns2)
    /\ eval (14 + fuel) factorial_loop ∅ ns2 = (Return zero, ns3)
    /\ eval (1 + fuel) (get "j") ∅ ns3 = (Return (fraction 3628800), ns3).
Proof.
  eexists _, _, _. split; [|split; [|split]].
  - apply (eval_ast_fuel_mono 2); [|done|lia]. vm_compute. reflexivity.
  - apply (eval_ast_fuel_mono 2); [|done|lia]. vm_compute. reflexivity.
  - apply (eval_ast_fuel_mono 14); [|done|lia]. vm_compute. reflexivity.
  - apply (eval_ast_fuel_mono 1); [|done|lia]. vm_compute. reflexivity.
Qed.

End EvaluatorFacts.

(** *** Closed runs of the evaluator *)

(** The assertions of the source's own tests [test1] to [test5], [test7],
    [test_concat] and [test_slice] hold of the model ([test6] is
    [factorial_round_trip]). *)
Example test1 :
  fst (eval0 5 (binary_operation "/"
                  (binary_operation "*" (num 4)
                     (binary_operation "/" (binary_operation "+" (num 5) (num 10)) (num 5)))
                  (num 7)) ∅ ∅)
  = Return (VFraction (Q2Qc (12 # 7))).
Proof. vm_compute. reflexivity. Qed.

Example test2 :
  fst (eval0 4 (binary_operation "/"
                  (binary_operation "**" (num 5) (num 4))
                  (binary_operation "*" (num 10) (num 5))) ∅ ∅)
  = Return (VFraction (Q2Qc (625 # 50))).
Proof. vm_compute. reflexivity. Qed.

Example test3 :
  fst (eval0 5 (let_ "x" (num 4)
                  (let_ "x" (binary_operation "+" (let_var "x") (num 5))
                     (binary_operation "*" (let_var "x") (num 3)))) ∅ ∅)
  = Return (fraction 27).
Proof. vm_compute. reflexivity. Qed.

Example test4 :
  fst (eval0 4 (if_statement (binary_operation "<" (num 4) (num 5)) (num 40) (num 50))
             ∅ ∅)
  = Return (fraction 40).
Proof. vm_compute. reflexivity. Qed.

Example test5 :
  eval0 4 (block [num 4; num 5; binary_operation "+" (num 4) (num 5)]) ∅ ∅
  = (Return zero, ∅).
Proof. vm_compute. reflexivity. Qed.

Example test7 :
  exists ns,
    eval0 2 (set "x" (num 1)) ∅ (snd (eval0 1 (num 0) ∅ ∅)) = (Return zero, ns)
    /\ eval0 1 (mut_var "x") ∅ ns = (Return (fraction 1), ns)
    /\ eval0 1 (get "x") ∅ ns = (Return (fraction 1), ns).
Proof. eexists. repeat split; vm_compute; reflexivity. Qed.

Example test_concat :
  fst (eval0 2 (string_operation "concat"
                  (operand_list (map string_literal
                     ["This"; "Is"; "A"; "Test"; "For"; " "; "Concatenation"]))
                  0 0 1) ∅ ∅)
  = Return (VStr "ThisIsATestFor Concatenation").
Proof. vm_compute. reflexivity. Qed.

Example test_slice :
  let e1 := operand_node (string_literal "HelloWorld") in
  fst (eval0 2 (string_operation "slice" e1 0 4 1) ∅ ∅) = Return (VStr "Hell")
  /\ fst (eval0 2 (string_operation "slice" e1 0 10 2) ∅ ∅) = Return (VStr "Hlool")
  /\ fst (eval0 2 (string_operation "slice" e1 4 0 (-1)) ∅ ∅) = Return (VStr "olle").
Proof. repeat split; vm_compute; reflexivity. Qed.

(** C1, as stated, fails: with a falsy left operand of [&&] the write in
    the right operand does not happen, although that operand, run alone,
    does write; with a truthy left operand of [||] the error in the right
    operand does not occur, although that operand, run alone, raises. *)
Lemma logical_operators_skip_right_operand :
  eval0 2 (set "x" (num 1)) ∅ ∅ = (Return zero, {["x" := fraction 1]})
  /\ eval0 3 (binary_operation "&&" (bool_literal false) (set "x" (num 1))) ∅ ∅
     = (Return (VBool false), ∅)
  /\ eval0 1 (let_var "y") ∅ ∅ = (Raise VariableNotDefined, ∅)
  /\ eval0 2 (binary_operation "||" (bool_literal true) (let_var "y")) ∅ ∅
     = (Return (VBool true), ∅).
Proof. repeat split; vm_compute; reflexivity. Qed.

Lemma logical_operators_short_circuit_witness :
  eval0 3 (binary_operation "&&" (bool_literal false) (set "x" (num 1))) ∅ ∅
  = (Return (VBool false), ∅).
Proof.
  exact (proj1 (proj1 (logical_operators_short_circuit
                         no_Fraction_of_str no_Fraction_of_float_pow 2
                         (bool_literal false) (set "x" (num 1)) ∅ ∅
                         (VBool false) ∅ eq_refl) eq_refl)).
Defined.

Lemma division_of_literals_exact_witness :
  eval0 2 (binary_operation "/" (numeric_literal (Q2Qc 1)) (numeric_literal (Q2Qc 2)))
        ∅ ∅ = (Return (VFraction (Q2Qc 1 / Q2Qc 2)%Qc), ∅)
  /\ (Q2Qc 2 * (Q2Qc 1 / Q2Qc 2) = Q2Qc 1)%Qc
  /\ eval0 2 (binary_operation "/" (numeric_literal (Q2Qc 1)) (numeric_literal 0%Qc))
        ∅ ∅ = (Raise DivisionByZero, ∅).
Proof.
  apply (division_of_literals_exact no_Fraction_of_str no_Fraction_of_float_pow
           0 (Q2Qc 1) (Q2Qc 2) ∅ ∅).
  vm_compute. discriminate.
Defined.

(** The divisor [get x] is 2 in the namespace [{x: 2}], and the division
    by it raises "Variable not defined" all the same: the zero test reads
    [x] in the empty namespace. *)
Lemma division_evaluates_divisor_twice_witness :
  eval0 1 (get "x") ∅ {["x" := fraction 2]} = (Return (fraction 2), {["x" := fraction 2]})
  /\ eval0 2 (binary_operation "/" (num 1) (get "x")) ∅ {["x" := fraction 2]}
     = (Raise VariableNotDefined, {["x" := fraction 2]}).
Proof.
  split; [reflexivity|].
  exact (proj1 (division_evaluates_divisor_twice
                  no_Fraction_of_str no_Fraction_of_float_pow 1 (num 1) (get "x")
                  ∅ {["x" := fraction 2]} (Raise VariableNotDefined) ∅ eq_refl)
               VariableNotDefined eq_refl).
Defined.

(** A block that rewrites the old key [x] and introduces the key [y]. *)
Lemma block_merges_existing_keys_only_witness :
  exists N',
    eval0 3 (block [set "x" (num 2); set "y" (num 3)]) ∅ {["x" := fraction 1]}
    = (Return zero, N')
    /\ (forall k, is_Some (({["x" := fraction 1]} : gmap string Value) !! k) ->
          is_Some (N' !! k)
          /\ N' !! k = (<["y" := fraction 3]> {["x" := fraction 2]} : gmap string Value) !! k)
    /\ (forall k fuel', ({["x" := fraction 1]} : gmap string Value) !! k = None ->
          N' !! k = None
          /\ eval0 (S fuel') (get k) ∅ N' = (Raise VariableNotDefined, N')).
Proof.
  apply (block_merges_existing_keys_only
           no_Fraction_of_str no_Fraction_of_float_pow 2
           [set "x" (num 2); set "y" (num 3)] ∅ {["x" := fraction 1]}
           (<["y" := fraction 3]> {["x" := fraction 2]})).
  vm_compute. reflexivity.
Defined.

(** A block that writes [x] and then reads the undefined [y]: the copy
    has the new [x], the namespace the old one. *)
Lemma block_error_leaves_namespace_witness :
  eval_exps (eval0 2) [set "x" (num 2); get "y"] ∅ {["x" := fraction 1]}
  = (Some (Raise VariableNotDefined), {["x" := fraction 2]})
  /\ eval0 3 (block [set "x" (num 2); get "y"]) ∅ {["x" := fraction 1]}
     = (Raise VariableNotDefined, {["x" := fraction 1]}).
Proof.
  assert (eval_exps (eval0 2) [set "x" (num 2); get "y"] ∅ {["x" := fraction 1]}
          = (Some (Raise VariableNotDefined), {["x" := fraction 2]})) as H
    by (vm_compute; reflexivity).
  split; [exact H|].
  exact (proj1 (block_error_leaves_namespace
                  no_Fraction_of_str no_Fraction_of_float_pow 2
                  [set "x" (num 2); get "y"] ∅ {["x" := fraction 1]}
                  VariableNotDefined) _ H).
Defined.

(** * Properties of the tokenizer *)

Section StreamFacts.

Lemma append_cons (c : ascii) (s t : string) :
  String c s ++ t = String c (s ++ t).
Proof. reflexivity. Qed.

Lemma append_nil_r (s : string) : s ++ "" = s.
Proof. induction s as [|c s IH]; [reflexivity|]. by rewrite append_cons, IH. Qed.

Lemma append_snoc (pre : string) (c : ascii) (rest : string) :
  pre ++ String c rest = (pre ++ str c) ++ rest.
Proof.
  induction pre as [|d pre IH]; [reflexivity|].
  by rewrite !append_cons, IH.
Qed.

Lemma length_snoc (s : string) (c : ascii) :
  String.length (s ++ str c) = String.length s + 1.
Proof.
  induction s as [|d s IH]; [reflexivity|].
  rewrite append_cons. simpl. by rewrite IH.
Qed.

Lemma get_append_here (pre : string) (c : ascii) (rest : string) :
  String.get (String.length pre) (pre ++ String c rest) = Some c.
Proof.
  induction pre as [|d pre IH]; [reflexivity|].
  rewrite append_cons. exact IH.
Qed.

Lemma get_at_end (s : string) : String.get (String.length s) s = None.
Proof. induction s as [|c s IH]; simpl; [reflexivity | exact IH]. Qed.

End StreamFacts.

Section LexerFacts.

Lemma read_here pre c rest saved :
  read (reading pre (String c rest) saved) = Got c (reading (pre ++ str c) rest saved).
Proof.
  unfold read, next_char, reading, with_stream. simpl.
  by rewrite get_append_here, <- append_snoc, length_snoc.
Qed.

Lemma read_at_end pre saved :
  read (reading pre "" saved) = Fail EndOfTokens (reading pre "" saved).
Proof.
  unfold read, next_char, reading. simpl.
  by rewrite append_nil_r, get_at_end.
Qed.

(** Without a closing quote, [string] reads to the end of the input and
    raises [EndOfTokens] there. *)
Lemma string_loop_unterminated rest :
  forall pre saved s fuel,
    char_in dquote rest = false ->
    String.length rest < fuel ->
    string_loop fuel (reading pre rest saved) s
    = Fail EndOfTokens (reading (pre ++ rest) "" saved).
Proof.
  induction rest as [|c rest IH]; intros pre saved s fuel Hq Hfuel;
    (destruct fuel as [|fuel]; [simpl in Hfuel; lia|]); cbn [string_loop].
  - rewrite read_at_end. by rewrite !append_nil_r.
  - rewrite read_here.
    change (Ascii.eqb dquote c || char_in dquote rest = false) in Hq.
    apply orb_false_iff in Hq as [Hc Hrest].
    rewrite Ascii.eqb_sym, Hc.
    rewrite IH by (cbn [String.length] in Hfuel; done || lia).
    by rewrite <- append_snoc.
Qed.

(** More fuel does not change an answer of the tokenizer. *)
Lemma number_loop_mono fuel :
  forall fuel' self n,
    number_loop fuel self n <> NoFuel -> fuel <= fuel' ->
    number_loop fuel' self n = number_loop fuel self n.
Proof.
  induction fuel as [|fuel IH]; intros fuel' self n Hr Hle; [done|].
  destruct fuel' as [|fuel']; [lia|]. simpl in *.
  destruct (read self) as [c self1|e self1|]; try done.
  destruct (isdigit c); [|done]. apply IH; [done|lia].
Qed.

Lemma identifier_loop_mono fuel :
  forall fuel' self word,
    identifier_loop fuel self word <> NoFuel -> fuel <= fuel' ->
    identifier_loop fuel' self word = identifier_loop fuel self word.
Proof.
  induction fuel as [|fuel IH]; intros fuel' self word Hr Hle; [done|].
  destruct fuel' as [|fuel']; [lia|]. simpl in *.
  destruct (read self) as [c self1|e self1|]; try done.
  destruct (isalpha c); [|done]. apply IH; [done|lia].
Qed.

Lemma string_loop_mono fuel :
  forall fuel' self s,
    string_loop fuel self s <> NoFuel -> fuel <= fuel' ->
    string_loop fuel' self s = string_loop fuel self s.
Proof.
  induction fuel as [|fuel IH]; intros fuel' self s Hr Hle; [done|].
  destruct fuel' as [|fuel']; [lia|]. simpl in *.
  destruct (read self) as [c self1|e self1|]; try done.
  destruct (Ascii.eqb c dquote); [done|]. apply IH; [done|lia].
Qed.

Lemma some_token_fuel r : some_token r <> NoFuel -> r <> NoFuel.
Proof. by destruct r. Qed.

Lemma next_token_mono fuel :
  forall fuel' self,
    next_token fuel self <> NoFuel -> fuel <= fuel' ->
    next_token fuel' self = next_token fuel self.
Proof.
  induction fuel as [|fuel IH]; intros fuel' self Hr Hle; [done|].
  destruct fuel' as [|fuel']; [lia|]. simpl in *.
  destruct (read self) as [c self1|e self1|]; try done.
  repeat case_match; try done.
  - unfold number in *. apply some_token_fuel in Hr.
    rewrite (number_loop_mono fuel fuel'); [done|done|lia].
  - unfold identifier in *. apply some_token_fuel in Hr.
    rewrite (identifier_loop_mono fuel fuel'); [done|done|lia].
  - unfold string_ in *. apply some_token_fuel in Hr.
    rewrite (string_loop_mono fuel fuel'); [done|done|lia].
  - apply IH; [done|lia].
Qed.

Lemma tokens_mono fuel :
  forall fuel' self,
    tokens fuel self <> NoFuel -> fuel <= fuel' ->
    tokens fuel' self = tokens fuel self.
Proof.
  induction fuel as [|fuel IH]; intros fuel' self Hr Hle; [done|].
  destruct fuel' as [|fuel']; [lia|]. simpl in *.
  assert (next_token fuel self <> NoFuel) as Hn
    by (intros Hn; by rewrite Hn in Hr).
  rewrite (next_token_mono fuel fuel') by (done || lia).
  destruct (next_token fuel self) as [t self1|e self1|]; try done.
  rewrite (IH fuel' self1); [done| |lia].
  intros Ht. by rewrite Ht in Hr.
Qed.

End LexerFacts.

Section TokenizerClaims.

Lemma reading_end s saved : reading s "" saved = at_end s saved.
Proof. unfold reading, at_end. by rewrite append_nil_r. Qed.

Lemma next_token_at_end fuel s saved :
  next_token (S fuel) (at_end s saved) = Fail EndOfTokens (at_end s saved).
Proof.
  rewrite <- reading_end. cbn [next_token]. by rewrite read_at_end.
Qed.

(** C5, on the code: [next_token] has no case for the characters [&]
    and [|], which are not in [operators]; reading either it consumes
    that one character and returns [None], whatever follows.  The
    method [operator], had it been called on the first [&] of a pair,
    would have returned [Operator("and")]. *)
Theorem ampersand_and_bar_yield_no_token
    (fuel : nat) (pre rest : string) (saved : option TokenType) :
  next_token (S fuel) (reading pre (String "&" rest) saved)
  = Got None (reading (pre ++ "&") rest saved)
  /\ next_token (S fuel) (reading pre (String "|" rest) saved)
     = Got None (reading (pre ++ "|") rest saved)
  /\ next_token 2 (fresh "&&") = Got None (reading "&" "&" None)
  /\ operator (reading "&" "&" None) "&"
     = Got (Operator "and") (reading "&&" "" None).
Proof.
  repeat split; cbn [next_token]; rewrite ?read_here; reflexivity.
Qed.

(** C6, on the code: on the text [1 2 3] with nothing saved,
    [peek_token] returns [Num(1)].  [advance] saves that token through
    its own call of [peek_token], then scans and drops [Num(2)], and
    leaves [Num(1)] saved: the next [peek_token] returns [Num(1)] again,
    and the tokens still to come are [Num(1)] and [Num(3)]. *)
Theorem advance_without_saved_token_skips_a_token :
  let peeked := with_save (reading "1" " 2 3" None) (Some (Num 1)) in
  let advanced := with_save (reading "1 2" " 3" None) (Some (Num 1)) in
  tokens 10 (fresh "1 2 3")
  = Got [Some (Num 1); Some (Num 2); Some (Num 3)] (at_end "1 2 3" None)
  /\ peek_token 10 (fresh "1 2 3") = Got (Some (Num 1)) peeked
  /\ advance 10 (fresh "1 2 3") = Got tt advanced
  /\ peek_token 10 advanced = Got (Some (Num 1)) advanced
  /\ advance 10 advanced = Got tt (reading "1 2" " 3" None)
  /\ peek_token 10 (reading "1 2" " 3" None)
     = Got (Some (Num 3)) (with_save (at_end "1 2 3" None) (Some (Num 3))).
Proof. repeat split. Qed.

(** C7: the text of [lexing_test1] yields these fourteen tokens, in
    this order, and then [next_token] raises [EndOfTokens]; any fuel
    from 35 on is enough. *)
Theorem lexing_test1_token_sequence (fuel : nat) :
  tokens (35 + fuel) (fresh lexing_test1)
  = Got [Some (Keyword "if"); Some (Num 22); Some (Operator ">=");
         Some (Num 33); Some (Keyword "then"); Some (Num 5);
         Some (Operator "+"); Some (Num 3); Some (Keyword "else");
         Some (Num 8); Some (Operator "*"); Some (Num 3);
         Some (Keyword "end"); Some (Operator ";")]
        (at_end lexing_test1 None)
  /\ next_token (S fuel) (at_end lexing_test1 None)
     = Fail EndOfTokens (at_end lexing_test1 None).
Proof.
  split; [|apply next_token_at_end].
  rewrite (tokens_mono 35 (35 + fuel)); [by vm_compute| |lia].
  by vm_compute.
Qed.

(** C9 (amended): when the tokenizer reads a double quote and no
    double quote follows before the end of the input, [next_token]
    raises [EndOfTokens] with the whole input consumed; this is the
    error, and the state, of a [next_token] at the plain end of the
    input. *)
Theorem unterminated_string_raises_EndOfTokens
    (fuel : nat) (pre rest : string) (saved : option TokenType) :
  char_in dquote rest = false ->
  String.length rest + 1 < fuel ->
  let finished := at_end (pre ++ String dquote rest) saved in
  next_token fuel (reading pre (String dquote rest) saved)
  = Fail EndOfTokens finished
  /\ next_token fuel finished = Fail EndOfTokens finished.
Proof.
  intros Hq Hfuel finished. subst finished.
  destruct fuel as [|fuel]; [lia|].
  split; [|apply next_token_at_end].
  cbn [next_token]. rewrite read_here.
  change (bool_decide (str dquote ∈ operators)) with false.
  change (isdigit dquote) with false.
  change (isalpha dquote) with false.
  change (Ascii.eqb dquote dquote) with true.
  cbv iota. unfold string_.
  rewrite string_loop_unterminated by (done || lia).
  by rewrite <- append_snoc, reading_end.
Qed.

End TokenizerClaims.

(** C9, as stated, fails: the text of an opened and never closed string
    makes [next_token] raise [EndOfTokens], the exception it raises on the
    empty text; the file has no other exception for it. *)
Lemma unterminated_string_is_EndOfTokens :
  next_token 5 (fresh (String dquote "abc"))
  = Fail EndOfTokens (at_end (String dquote "abc") None)
  /\ next_token 5 (fresh "") = Fail EndOfTokens (at_end "" None).
Proof. split; reflexivity. Qed.

Lemma unterminated_string_raises_EndOfTokens_witness :
  next_token 5 (reading "x = " (String dquote "abc") None)
  = Fail EndOfTokens (at_end ("x = " ++ String dquote "abc") None)
  /\ next_token 5 (at_end ("x = " ++ String dquote "abc") None)
     = Fail EndOfTokens (at_end ("x = " ++ String dquote "abc") None).
Proof.
  apply (unterminated_string_raises_EndOfTokens 5 "x = " "abc" None).
  - reflexivity.
  - simpl. lia.
Defined.

(** * Further properties of the tokenizer *)

Section StreamSteps.

Lemma get_Some_lt (s : string) : forall n c, String.get n s = Some c -> n < String.length s.
Proof.
  induction s as [|d s IH]; intros n c H; [by destruct n|].
  destruct n as [|n]; simpl in *; [lia|]. apply IH in H. lia.
Qed.

Lemma read_inv (self : lexer) :
  match read self with
  | Got c self1 =>
      String.get (pos (stream self)) (source (stream self)) = Some c
      /\ self1 = with_stream self {| source := source (stream self);
                                     pos := pos (stream self) + 1 |}
  | Fail e self1 => e = EndOfTokens /\ self1 = self
  | NoFuel => False
  end.
Proof.
  unfold read, next_char.
  by destruct (String.get (pos (stream self)) (source (stream self))).
Qed.

Lemma read_Got self c self1 :
  read self = Got c self1 ->
  follows self self1 /\ pos (stream self1) = pos (stream self) + 1.
Proof.
  intros H. pose proof (read_inv self) as Hi. rewrite H in Hi.
  destruct Hi as [Hget ->]. apply get_Some_lt in Hget.
  unfold follows. simpl. repeat split; lia.
Qed.

Lemma unread_after (self : lexer) :
  0 < pos (stream self) ->
  unread self = Got tt (with_stream self {| source := source (stream self);
                                            pos := pos (stream self) - 1 |}).
Proof.
  intros H. unfold unread, prev_char.
  by destruct (Nat.ltb_spec 0 (pos (stream self))); [|lia].
Qed.

Lemma follows_refl self :
  pos (stream self) <= String.length (source (stream self)) -> follows self self.
Proof. unfold follows. intros. repeat split; lia. Qed.

Lemma follows_trans a b c : follows a b -> follows b c -> follows a c.
Proof.
  unfold follows. intros (Hs1 & Hv1 & Hp1) (Hs2 & Hv2 & Hp2).
  rewrite Hs1 in *. repeat split; try congruence; lia.
Qed.

End StreamSteps.

Section ScanningSteps.

Ltac read_cases self :=
  let Hr := fresh "Hr" in
  let Hget := fresh "Hget" in
  pose proof (read_inv self) as Hr;
  destruct (read self) as [?c ?self1|?e ?self1|];
  [ destruct Hr as [Hget ->]; pose proof (get_Some_lt _ _ _ Hget)
  | destruct Hr as [-> ->]
  | done ].

Lemma follows_read self :
  pos (stream self) < String.length (source (stream self)) ->
  follows self (with_stream self {| source := source (stream self);
                                    pos := pos (stream self) + 1 |}).
Proof. unfold follows. simpl. intros. repeat split; lia. Qed.

Lemma pushed_back self :
  unread (with_stream self {| source := source (stream self);
                              pos := pos (stream self) + 1 |})
  = Got tt self.
Proof.
  rewrite unread_after by (simpl; lia). destruct self as [[src p] sv].
  unfold with_stream. simpl. do 3 f_equal. lia.
Qed.

Lemma number_loop_spec fuel :
  forall self n,
    pos (stream self) <= String.length (source (stream self)) ->
    match number_loop fuel self n with
    | Got t self1 => follows self self1
    | Fail _ _ => False
    | NoFuel => fuel <= remaining self
    end.
Proof.
  induction fuel as [|fuel IH]; intros self n Hpos; [cbn; lia|].
  cbn [number_loop]. read_cases self.
  - destruct (isdigit c).
    + match goal with |- context [number_loop fuel ?s ?m] =>
        specialize (IH s m); destruct (number_loop fuel s m) end.
      * eapply follows_trans; [by apply follows_read|]. apply IH. simpl. lia.
      * apply IH. simpl. lia.
      * unfold remaining in *. simpl in IH. lia.
    + rewrite pushed_back. by apply follows_refl.
  - by apply follows_refl.
Qed.

Lemma identifier_loop_spec fuel :
  forall self word,
    pos (stream self) <= String.length (source (stream self)) ->
    match identifier_loop fuel self word with
    | Got t self1 => follows self self1
    | Fail _ _ => False
    | NoFuel => fuel <= remaining self
    end.
Proof.
  induction fuel as [|fuel IH]; intros self word Hpos; [cbn; lia|].
  cbn [identifier_loop]. read_cases self.
  - destruct (isalpha c).
    + match goal with |- context [identifier_loop fuel ?s ?m] =>
        specialize (IH s m); destruct (identifier_loop fuel s m) end.
      * eapply follows_trans; [by apply follows_read|]. apply IH. simpl. lia.
      * apply IH. simpl. lia.
      * unfold remaining in *. simpl in IH. lia.
    + rewrite pushed_back. by apply follows_refl.
  - by apply follows_refl.
Qed.

Lemma string_loop_spec fuel :
  forall self s,
    pos (stream self) <= String.length (source (stream self)) ->
    match string_loop fuel self s with
    | Got t self1 => follows self self1
    | Fail e self1 => e = EndOfTokens /\ follows self self1
    | NoFuel => fuel <= remaining self
    end.
Proof.
  induction fuel as [|fuel IH]; intros self s Hpos; [cbn; lia|].
  cbn [string_loop]. read_cases self.
  - destruct (Ascii.eqb c dquote); [by apply follows_read|].
    match goal with |- context [string_loop fuel ?s ?m] =>
      specialize (IH s m); destruct (string_loop fuel s m) end.
    + eapply follows_trans; [by apply follows_read|]. apply IH. simpl. lia.
    + destruct IH as [-> IH]; [simpl; lia|]. split; [done|].
      eapply follows_trans; [by apply follows_read|done].
    + unfold remaining in *. simpl in IH. lia.
  - split; [done|]. by apply follows_refl.
Qed.

Lemma lookahead_spec self second two one :
  pos (stream self) <= String.length (source (stream self)) ->
  match lookahead self second two one with
  | Got t self1 => follows self self1
  | Fail e self1 => e = EndOfTokens /\ self1 = self
  | NoFuel => False
  end.
Proof.
  intros Hpos. unfold lookahead. read_cases self; [|done].
  destruct (Ascii.eqb c second); [by apply follows_read|].
  rewrite pushed_back. by apply follows_refl.
Qed.

Lemma operator_spec self c :
  pos (stream self) <= String.length (source (stream self)) ->
  match operator self c with
  | Got t self1 => follows self self1
  | Fail e self1 => e = EndOfTokens /\ self1 = self
  | NoFuel => False
  end.
Proof.
  intros Hpos. unfold operator.
  repeat (match goal with |- context [if ?b then _ else _] => destruct b end;
          [by apply lookahead_spec|]).
  by apply follows_refl.
Qed.

(** What a call of [next_token] can do. *)
Lemma next_token_spec fuel :
  forall self,
    match next_token fuel self with
    | Got t self1 =>
        follows self self1 /\ pos (stream self) < pos (stream self1)
    | Fail e self1 =>
        e = EndOfTokens /\ source (stream self1) = source (stream self)
        /\ save self1 = save self /\ pos (stream self) <= pos (stream self1)
    | NoFuel => fuel <= remaining self
    end.
Proof.
  induction fuel as [|fuel IH]; intros self; [cbn; lia|].
  cbn [next_token]. read_cases self; [|by simpl].
  set (self1 := with_stream self _).
  assert (follows self self1) as Hf by (by apply follows_read).
  assert (pos (stream self1) <= String.length (source (stream self1))) as Hp1
    by (simpl; lia).
  assert (forall self2, follows self1 self2 ->
            follows self self2 /\ pos (stream self) < pos (stream self2)) as Hgot.
  { intros self2 H2. split; [by eapply follows_trans|].
    destruct H2 as (_ & _ & H2). simpl in H2. lia. }
  assert (forall self2, follows self1 self2 ->
            source (stream self2) = source (stream self)
            /\ save self2 = save self /\ pos (stream self) <= pos (stream self2)) as Hfail.
  { intros self2 H2. destruct (Hgot _ H2) as [(? & ? & ?) ?]. repeat split; [done|done|lia]. }
  assert (forall n, n <= remaining self1 -> S n <= remaining self) as Hfuel.
  { unfold remaining. simpl. lia. }
  repeat match goal with |- context [if ?b then _ else _] => destruct b end.
  - pose proof (operator_spec self1 c Hp1) as Ho.
    destruct (operator self1 c); simpl; [by apply Hgot| |done].
    destruct Ho as [-> ->]. split; [done|]. apply Hfail. by apply follows_refl.
  - unfold number. pose proof (number_loop_spec fuel self1 (int c) Hp1) as Ho.
    destruct (number_loop fuel self1 (int c)); simpl; [by apply Hgot|done|by apply Hfuel].
  - unfold identifier. pose proof (identifier_loop_spec fuel self1 (str c) Hp1) as Ho.
    destruct (identifier_loop fuel self1 (str c)); simpl;
      [by apply Hgot|done|by apply Hfuel].
  - unfold string_. pose proof (string_loop_spec fuel self1 "" Hp1) as Ho.
    destruct (string_loop fuel self1 ""); simpl; [by apply Hgot| |by apply Hfuel].
    destruct Ho as [-> Ho]. split; [done|]. by apply Hfail.
  - specialize (IH self1). destruct (next_token fuel self1).
    + destruct IH as [IH ?]. destruct (Hgot _ IH). split; [done|]. simpl in *. lia.
    + destruct IH as (-> & Hs & Hv & Hp). split; [done|].
      simpl in *. repeat split; [done|done|lia].
    + by apply Hfuel.
  - apply Hgot. by apply follows_refl.
Qed.

Lemma next_token_spec_save fuel self t self1 :
  next_token fuel self = Got t self1 -> save self1 = save self.
Proof.
  intros H. pose proof (next_token_spec fuel self) as Hs. rewrite H in Hs.
  by destruct Hs as [(? & ? & ?) ?].
Qed.

End ScanningSteps.

Section TokenizerProtocol.

(** X1: [prev_char] undoes [next_char]: after a character was read, the
    stream pushed back by one is the stream before the read. *)
Theorem prev_char_undoes_next_char (s : Stream) (c : ascii) (s' : Stream) :
  next_char s = inr (c, s') -> prev_char s' = inr s.
Proof.
  unfold next_char, prev_char. destruct s as [src p]. simpl.
  destruct (String.get p src); [|done]. intros ?; simplify_eq. simpl.
  destruct (Nat.ltb_spec 0 (p + 1)); [|lia]. do 2 f_equal. lia.
Qed.

(** X2: a [next_token] that returns has moved the position forward by at
    least one character and not past the end of the text, and has changed
    neither the text nor the saved token. *)
Theorem next_token_advances
    (fuel : nat) (self : lexer) (t : option TokenType) (self1 : lexer) :
  next_token fuel self = Got t self1 ->
  source (stream self1) = source (stream self)
  /\ save self1 = save self
  /\ pos (stream self) < pos (stream self1)
  /\ pos (stream self1) <= String.length (source (stream self)).
Proof.
  intros H. pose proof (next_token_spec fuel self) as Hs. rewrite H in Hs.
  destruct Hs as [(? & ? & ?) ?]. repeat split; [done|done|lia|lia].
Qed.



(** X5: once [peek_token] has returned a token, every further
    [peek_token] returns that token and leaves the tokenizer as it is. *)
Theorem peek_token_idempotent
    (fuel fuel' : nat) (self : lexer) (t : TokenType) (self1 : lexer) :
  peek_token fuel self = Got (Some t) self1 ->
  peek_token fuel' self1 = Got (Some t) self1.
Proof.
  unfold peek_token at 1. destruct (save self) as [t0|] eqn:Hsave.
  - intros ?; simplify_eq. unfold peek_token. by rewrite Hsave.
  - destruct (next_token fuel self) as [t1 s1|[] s1|]; intros ?; simplify_eq.
    reflexivity.
Qed.

Lemma with_save_None self : save self = None -> with_save self None = self.
Proof. destruct self. simpl. by intros ->. Qed.

Lemma with_save_twice self a b : with_save (with_save self a) b = with_save self b.
Proof. reflexivity. Qed.

(** X6: with nothing saved, [peek_token] followed by [advance] consumes
    exactly the token that [next_token] would have returned: the peek
    returns it and saves it, and the advance leaves the tokenizer in the
    state [next_token] would have left. *)
Theorem peek_then_advance_is_next_token
    (fuel fuel' : nat) (self : lexer) (t : TokenType) (self1 : lexer) :
  save self = None ->
  next_token fuel self = Got (Some t) self1 ->
  peek_token fuel self = Got (Some t) (with_save self1 (Some t))
  /\ advance fuel' (with_save self1 (Some t)) = Got tt self1.
Proof.
  intros Hsave Hnext. unfold peek_token, advance. rewrite Hsave, Hnext. simpl.
  split; [done|]. rewrite with_save_twice, with_save_None; [done|].
  apply next_token_spec_save in Hnext. congruence.
Qed.

End TokenizerProtocol.

Section TokenizerMatch.

(** X7: with nothing saved, [match(expected)] on a text whose next token
    is [t] consumes exactly that token when [t] is the expected one, and
    otherwise raises [TokenError] and keeps [t] saved for the next
    [peek_token]. *)
Theorem match_consumes_or_keeps
    (fuel : nat) (self : lexer) (t expected : TokenType) (self1 : lexer) :
  save self = None ->
  next_token fuel self = Got (Some t) self1 ->
  match_ fuel self expected
  = (if decide (t = expected) then Got tt self1
     else Fail TokenError (with_save self1 (Some t)))
  /\ peek_token fuel (with_save self1 (Some t))
     = Got (Some t) (with_save self1 (Some t)).
Proof.
  intros Hsave Hnext. split; [|reflexivity].
  unfold match_, peek_token. rewrite Hsave, Hnext.
  destruct (decide (t = expected)) as [->|Hne].
  - rewrite bool_decide_eq_true_2 by done.
    change (advance fuel (with_save self1 (Some expected)))
      with (Got tt (with_save self1 None)).
    rewrite with_save_None; [done|].
    apply next_token_spec_save in Hnext. congruence.
  - by rewrite bool_decide_eq_false_2 by congruence.
Qed.

(** X8: at the end of the text, with nothing saved, [peek_token] returns
    [None], [advance] raises [EndOfTokens], and [match] raises
    [TokenError], not [EndOfTokens], whatever token it expects. *)
Theorem protocol_at_end_of_text
    (fuel : nat) (s : string) (expected : TokenType) :
  peek_token (S fuel) (at_end s None) = Got None (at_end s None)
  /\ advance (S fuel) (at_end s None) = Fail EndOfTokens (at_end s None)
  /\ match_ (S fuel) (at_end s None) expected = Fail TokenError (at_end s None).
Proof.
  unfold match_, advance, peek_token. cbn [save at_end].
  by rewrite next_token_at_end.
Qed.

End TokenizerMatch.

Section Scanning.

Lemma append_assoc (a b c : string) : (a ++ b) ++ c = a ++ b ++ c.
Proof.
  induction a as [|d a IH]; [reflexivity|]. by rewrite !append_cons, IH.
Qed.

Lemma unread_here pre c rest saved :
  unread (reading (pre ++ str c) rest saved) = Got tt (reading pre (String c rest) saved).
Proof.
  unfold unread, prev_char, reading, with_stream. cbn [stream source pos save].
  rewrite length_snoc, <- append_snoc.
  destruct (Nat.ltb_spec 0 (String.length pre + 1)); [|lia].
  do 3 f_equal. lia.
Qed.

Ltac by_cases c :=
  destruct c as [[] [] [] [] [] [] [] []]; vm_compute; intros; congruence.



Lemma white_space_dispatch c :
  char_in c white_space = true ->
  bool_decide (str c ∈ operators) = false /\ isdigit c = false
  /\ isalpha c = false /\ Ascii.eqb c dquote = false.
Proof. intros H. repeat split; revert H; by_cases c. Qed.



Lemma string_loop_closed s :
  forall pre rest saved acc fuel,
    char_in dquote s = false ->
    String.length s < fuel ->
    string_loop fuel (reading pre (s ++ String dquote rest) saved) acc
    = Got (String_ (acc ++ s)) (reading (pre ++ s ++ str dquote) rest saved).
Proof.
  induction s as [|c s IH]; intros pre rest saved acc fuel Hq Hfuel;
    (destruct fuel as [|fuel]; [cbn in Hfuel; lia|]); cbn [string_loop].
  - change ("" ++ String dquote rest) with (String dquote rest).
    rewrite read_here. change (Ascii.eqb dquote dquote) with true. cbv iota.
    by rewrite append_nil_r.
  - rewrite append_cons, read_here.
    change (Ascii.eqb dquote c || char_in dquote s = false) in Hq.
    apply orb_false_iff in Hq as [Hc Hs].
    rewrite Ascii.eqb_sym, Hc.
    rewrite IH by (done || (cbn [String.length] in Hfuel; lia)).
    by rewrite <- !append_snoc, append_cons.
Qed.



(** X11: white space before a token is skipped: [next_token] on a run of
    spaces, tabs and newlines followed by [rest] is [next_token] on
    [rest], one unit of fuel being spent per character skipped. *)
Theorem next_token_skips_white_space
    (fuel : nat) (ws : string) :
  forall (pre rest : string) (saved : option TokenType),
    all_chars (fun c => char_in c white_space) ws = true ->
    next_token (String.length ws + fuel) (reading pre (ws ++ rest) saved)
    = next_token fuel (reading (pre ++ ws) rest saved).
Proof.
  induction ws as [|c ws IH]; intros pre rest saved Hws.
  - change ("" ++ rest) with rest. by rewrite append_nil_r.
  - cbn [all_chars] in Hws. apply andb_true_iff in Hws as [Hc Hws].
    cbn [String.length Nat.add next_token]. rewrite append_cons, read_here.
    destruct (white_space_dispatch c Hc) as (-> & -> & -> & ->). rewrite Hc.
    rewrite IH by done. by rewrite <- append_snoc.
Qed.

(** X12: a string literal is read verbatim up to the next double quote:
    on a double quote, a text [s] without double quote and a closing
    double quote, [next_token] returns [String(s)] and stops right after
    the closing quote. *)
Theorem string_reads_to_closing_quote
    (fuel : nat) (pre s rest : string) (saved : option TokenType) :
  char_in dquote s = false ->
  String.length s + 1 < fuel ->
  next_token fuel (reading pre (String dquote (s ++ String dquote rest)) saved)
  = Got (Some (String_ s))
        (reading (pre ++ String dquote (s ++ str dquote)) rest saved).
Proof.
  intros Hq Hfuel. destruct fuel as [|fuel]; [lia|].
  cbn [next_token]. rewrite read_here.
  change (bool_decide (str dquote ∈ operators)) with false.
  change (isdigit dquote) with false.
  change (isalpha dquote) with false.
  change (Ascii.eqb dquote dquote) with true.
  cbv iota. unfold string_.
  rewrite string_loop_closed by (done || lia).
  change ("" ++ s) with s.
  by rewrite <- append_snoc.
Qed.

End Scanning.

Section Operators.

Ltac by_cases c :=
  destruct c as [[] [] [] [] [] [] [] []]; vm_compute; intros; congruence.

Lemma operator_alone (self : lexer) (c : ascii) :
  bool_decide (str c ∈ operators) = true ->
  bool_decide (c ∈ ["="; "!"; ">"; "<"; "^"]%char) = false ->
  operator self c = Got (Operator (str c)) self.
Proof. revert self. by_cases c. Qed.

(** X13: a character of [operators] that opens no two-character
    operator is a token by itself: [next_token] returns [Operator] of that
    character and reads nothing more. *)
Theorem one_character_operator
    (fuel : nat) (pre : string) (c : ascii) (rest : string)
    (saved : option TokenType) :
  str c ∈ operators ->
  c ∉ ["="; "!"; ">"; "<"; "^"]%char ->
  next_token (S fuel) (reading pre (String c rest) saved)
  = Got (Some (Operator (str c))) (reading (pre ++ str c) rest saved).
Proof.
  intros Hop Hone. cbn [next_token]. rewrite read_here.
  rewrite (bool_decide_eq_true_2 _ Hop).
  rewrite operator_alone; [done|by apply bool_decide_eq_true_2|by apply bool_decide_eq_false_2].
Qed.

Lemma lookahead_second pre second rest saved two one :
  lookahead (reading pre (String second rest) saved) second two one
  = Got (Operator two) (reading (pre ++ str second) rest saved).
Proof. unfold lookahead. by rewrite read_here, Ascii.eqb_refl. Qed.

Lemma lookahead_other pre e second rest saved two one :
  e <> second ->
  lookahead (reading pre (String e rest) saved) second two one
  = Got (Operator one) (reading pre (String e rest) saved).
Proof.
  intros Hne. unfold lookahead. rewrite read_here.
  apply Ascii.eqb_neq in Hne. by rewrite Hne, unread_here.
Qed.

Lemma lookahead_at_end pre saved second two one :
  lookahead (reading pre "" saved) second two one
  = Fail EndOfTokens (reading pre "" saved).
Proof. unfold lookahead. by rewrite read_at_end. Qed.

(** X14: the two-character operators.  After [=], [!], [>] or [<] an
    [=], and after [^] a second [^], is read into the token, which is
    [==], [!=], [>=], [<=] or [**]; any other character is pushed back and
    the token is the first character alone. *)
Theorem two_character_operator
    (fuel : nat) (pre : string) (c d : ascii) (two rest : string)
    (saved : option TokenType) :
  (c, d, two) ∈ [("="%char, "="%char, "=="); ("!"%char, "="%char, "!=");
                 (">"%char, "="%char, ">="); ("<"%char, "="%char, "<=");
                 ("^"%char, "^"%char, "**")] ->
  next_token (S fuel) (reading pre (String c (String d rest)) saved)
  = Got (Some (Operator two)) (reading (pre ++ str c ++ str d) rest saved)
  /\ forall e : ascii,
       e <> d ->
       next_token (S fuel) (reading pre (String c (String e rest)) saved)
       = Got (Some (Operator (str c))) (reading (pre ++ str c) (String e rest) saved).
Proof.
  intros Hin. rewrite <- append_assoc.
  repeat (apply elem_of_cons in Hin as [Hin|Hin]; [simplify_eq|]);
    [..|by apply elem_of_nil in Hin];
    (split; [|intros e He]); cbn [next_token]; rewrite read_here;
    match goal with |- context [bool_decide ?P] =>
      change (bool_decide P) with true end;
    cbv iota;
    match goal with |- context [operator ?s ?c] =>
      match goal with |- context [Operator ?two] =>
        first [ change (operator s c) with (lookahead s "=" two (str c))
              | change (operator s c) with (lookahead s "^" two (str c))
              | change (operator s c) with (lookahead s "=" (str c ++ "=") (str c))
              | change (operator s c) with (lookahead s "^" "**" (str c)) ]
      end
    end;
    first [ by rewrite lookahead_second | by rewrite lookahead_other ].
Qed.

(** X15: a [=], [!], [>], [<] or [^] that is the last character of the
    text is lost: looking for its second character, [next_token] raises
    [EndOfTokens] with the whole text consumed, and returns no token for
    it. *)
Theorem operator_at_end_of_text_is_lost
    (fuel : nat) (pre : string) (c : ascii) (saved : option TokenType) :
  c ∈ ["="; "!"; ">"; "<"; "^"]%char ->
  next_token (S fuel) (reading pre (str c) saved)
  = Fail EndOfTokens (at_end (pre ++ str c) saved).
Proof.
  intros Hin. rewrite <- reading_end.
  repeat (apply elem_of_cons in Hin as [->|Hin]);
    [..|by apply elem_of_nil in Hin];
    cbn [next_token]; unfold str at 1; rewrite read_here;
    match goal with |- context [bool_decide ?P] =>
      change (bool_decide P) with true end;
    cbv iota;
    match goal with |- context [operator ?s ?c] =>
      first [ change (operator s c) with (lookahead s "=" (str c ++ "=") (str c))
            | change (operator s c) with (lookahead s "^" "**" (str c)) ]
    end;
    by rewrite lookahead_at_end.
Qed.

End Operators.

(** * Further properties of the evaluator *)

Lemma merge_back_same (ns : gmap string Value) : merge_back ns ns = ns.
Proof.
  apply map_eq. intros k. rewrite merge_back_lookup.
  by destruct (ns !! k).
Qed.

Lemma merge_back_mono (local local' ns ns' : gmap string Value) :
  local ⊆ local' -> ns ⊆ ns' ->
  (forall k, is_Some (ns !! k) -> is_Some (local !! k)) ->
  merge_back local ns ⊆ merge_back local' ns'.
Proof.
  intros Hl Hn Hk. apply map_subseteq_spec. intros k v.
  rewrite !merge_back_lookup.
  destruct (ns !! k) as [v0|] eqn:E; [|done].
  rewrite (lookup_weaken _ _ _ _ E Hn).
  destruct (Hk k) as [w Hw]; [by rewrite E|].
  rewrite Hw, (lookup_weaken _ _ _ _ Hw Hl). done.
Qed.

Section EvaluatorMore.
Variable Fraction_of_str : string -> PyError + Qc.
Variable Fraction_of_float_pow : Qc -> Qc -> PyError + Qc.
Abbreviation env := (gmap string Value).
Abbreviation eval := (eval_ast Fraction_of_str Fraction_of_float_pow).

(** *** Expressions without [set] *)

Lemma eval_operands_read_only ev l r ls ns f :
  read_only ev -> set_free l = true -> set_free r = true ->
  snd (eval_operands ev l r ls ns f) = ns.
Proof.
  intros Hev Hl Hr. unfold eval_operands.
  pose proof (Hev l ls ns Hl) as H1.
  destruct (ev l ls ns) as [[a| |] ns1]; simpl in H1; subst; try done.
  pose proof (Hev r ls ns Hr) as H2.
  by destruct (ev r ls ns) as [[b| |] ns2]; simpl in H2; subst.
Qed.

Lemma eval_exps_read_only ev exps ls ns :
  read_only ev -> forallb set_free exps = true ->
  snd (eval_exps ev exps ls ns) = ns.
Proof.
  intros Hev. revert ns. induction exps as [|exp rest IH]; intros ns H; [done|].
  cbn [forallb] in H. apply andb_true_iff in H as [He Hrest]. cbn [eval_exps].
  pose proof (Hev exp ls ns He) as H1.
  destruct (ev exp ls ns) as [[a| |] ns1]; simpl in H1; subst; try done.
  by apply IH.
Qed.

Lemma eval_concat_read_only ev l s ls ns :
  read_only ev -> forallb set_free l = true ->
  snd (eval_concat ev l s ls ns) = ns.
Proof.
  intros Hev. revert s ns. induction l as [|i rest IH]; intros s ns H; [done|].
  cbn [forallb] in H. apply andb_true_iff in H as [He Hrest]. cbn [eval_concat].
  pose proof (Hev i ls ns He) as H1.
  destruct (ev i ls ns) as [[a| |] ns1]; simpl in H1; subst; try done.
  destruct (py_concat s a); [done|]. by apply IH.
Qed.

Lemma eval_ast_read_only fuel : read_only (eval fuel).
Proof.
  induction fuel as [|fuel IH]; intros e ls ns Hfree; [done|].
  destruct e; cbn [set_free] in Hfree; try discriminate;
    repeat match type of Hfree with
    | _ && _ = true => apply andb_true_iff in Hfree as [Hfree ?]
    end;
    cbn [eval_ast].
  all: repeat match goal with
    | |- snd (eval_operands _ _ _ _ _ _) = _ => by apply eval_operands_read_only
    | |- snd (eval_concat _ _ _ _ _) = _ => by apply eval_concat_read_only
    | |- snd (eval_ast _ _ _ ?e _ _) = _ =>
        apply IH; first [ done | cbn [set_free]; by apply andb_true_intro ]
    | |- snd (if ?b then _ else _) = _ => destruct b
    | |- snd (match ?x with _ => _ end) = _ =>
        lazymatch x with
        | eval_ast _ _ _ ?e0 ?ls0 ?ns0 =>
            let H1 := fresh "H1" in
            first [ assert (snd x = ns0) as H1 by (by apply IH)
                  | assert (True) as H1 by done ];
            destruct x as [[?| |] ?]; simpl in H1; subst
        | eval_exps _ ?l ?ls0 ?ns0 =>
            let H1 := fresh "H1" in
            assert (snd x = ns0) as H1 by (by apply eval_exps_read_only);
            destruct x as [[?|] ?]; simpl in H1; subst
        | _ => destruct x
        end
    | |- snd (_, _) = _ => cbn [snd]
    | |- merge_back ?a ?a = _ => apply merge_back_same
    | |- ?a = ?a => reflexivity
    end.
Qed.

(** *** Larger environments *)

Lemma eval_operands_weakens ev l r (ls ls' ns ns' : env) f v ns1 :
  weakens ev -> ls ⊆ ls' -> ns ⊆ ns' ->
  eval_operands ev l r ls ns f = (Return v, ns1) ->
  exists ns1', eval_operands ev l r ls' ns' f = (Return v, ns1') /\ ns1 ⊆ ns1'.
Proof.
  intros Hev Hls Hns. unfold eval_operands.
  destruct (ev l ls ns) as [[a| |] nsa] eqn:El; try done.
  destruct (Hev _ _ _ _ _ _ _ Hls Hns El) as (nsa' & -> & Hsub).
  destruct (ev r ls nsa) as [[b| |] nsb] eqn:Er; try done.
  destruct (Hev _ _ _ _ _ _ _ Hls Hsub Er) as (nsb' & -> & Hsub').
  intros [= Ho <-]. rewrite Ho. eauto.
Qed.

Lemma eval_exps_weakens ev exps (ls ls' : env) :
  weakens ev -> ls ⊆ ls' ->
  forall (ns ns' local : env),
    ns ⊆ ns' ->
    eval_exps ev exps ls ns = (None, local) ->
    exists local', eval_exps ev exps ls' ns' = (None, local') /\ local ⊆ local'.
Proof.
  intros Hev Hls. induction exps as [|exp rest IH]; intros ns ns' local Hns; cbn.
  - intros [= <-]. eauto.
  - destruct (ev exp ls ns) as [[a| |] nsa] eqn:E; try done.
    destruct (Hev _ _ _ _ _ _ _ Hls Hns E) as (nsa' & -> & Hsub). eauto.
Qed.

Lemma eval_exps_abrupt ev exps (ls ns ns1 : env) o :
  eval_exps ev exps ls ns = (Some o, ns1) -> forall v, o <> Return v.
Proof.
  revert ns. induction exps as [|exp rest IH]; intros ns; cbn; [done|].
  destruct (ev exp ls ns) as [[a| |] nsa]; eauto; by intros [= <- _].
Qed.

Lemma eval_concat_weakens ev l (ls ls' : env) :
  weakens ev -> ls ⊆ ls' ->
  forall s (ns ns' : env) v ns1,
    ns ⊆ ns' ->
    eval_concat ev l s ls ns = (Return v, ns1) ->
    exists ns1', eval_concat ev l s ls' ns' = (Return v, ns1') /\ ns1 ⊆ ns1'.
Proof.
  intros Hev Hls. induction l as [|i rest IH]; intros s ns ns' v ns1 Hns; cbn.
  - intros [= <- <-]. eauto.
  - destruct (ev i ls ns) as [[a| |] nsa] eqn:E; try done.
    destruct (Hev _ _ _ _ _ _ _ Hls Hns E) as (nsa' & -> & Hsub).
    destruct (py_concat s a); [done|]. eauto.
Qed.

Lemma eval_ast_weakens fuel : weakens (eval fuel).
Proof.
  induction fuel as [|fuel IH]; intros e ls ls' ns ns' v ns1 Hls Hns; [done|].
  destruct e; cbn [eval_ast];
    repeat lazymatch goal with
    | |- eval_operands _ _ _ _ _ _ = _ -> _ =>
        by apply eval_operands_weakens
    | |- eval_concat _ _ _ _ _ = _ -> _ =>
        by apply eval_concat_weakens
    | |- eval_ast _ _ _ _ _ _ = _ -> _ =>
        apply IH; first [ done | by apply insert_mono ]
    | |- (if ?b then _ else _) = _ -> _ => destruct b
    | |- (match ?x with _ => _ end) = _ -> _ =>
        lazymatch x with
        | eval_ast _ _ ?f ?e0 ∅ ∅ => destruct x as [[?| |] ?]
        | eval_ast _ _ ?f ?e0 ?ls0 ?ns0 =>
            let E := fresh "E" in
            destruct x as [[?| |] ?] eqn:E; try done;
            let Hsub := fresh "Hsub" in
            edestruct (IH e0 ls0 _ ns0 _ _ _
                         ltac:(first [ eassumption | by apply insert_mono ])
                         ltac:(eassumption) E) as (? & -> & Hsub)
        | eval_exps _ ?l ?ls0 ?ns0 =>
            let E := fresh "E" in
            destruct x as [[?|] ?] eqn:E;
            [ by intros [= -> _]; destruct (eval_exps_abrupt _ _ _ _ _ _ E v)
            | let Hsub := fresh "Hsub" in
              destruct (eval_exps_weakens _ _ _ _ IH Hls _ _ _ Hns E)
                as (? & -> & Hsub) ]
        | ?m !! ?k =>
            let E := fresh "E" in
            destruct x eqn:E; try done;
            rewrite (lookup_weaken _ _ _ _ E ltac:(eassumption))
        | _ => destruct x
        end
    | |- (_, _) = _ -> _ =>
        let Ho := fresh "Ho" in
        intros [= Ho <-]; try rewrite Ho; try subst;
        eexists; split; [reflexivity|]
    | |- False -> _ => done
    end;
    try done; try (by apply insert_mono).
  eapply merge_back_mono; eauto.
  intros k Hk. eapply eval_exps_keeps; eauto using eval_ast_keeps_keys.
Qed.

(** *** Properties of single constructs *)

(** X16: evaluation never removes a key from the namespace: every key
    present before a call of the evaluator is present after it, whatever
    the call does. *)
Theorem evaluation_keeps_every_key
    (fuel : nat) (e : AST) (ls ns : env) :
  dom ns ⊆ dom (snd (eval fuel e ls ns)).
Proof.
  intros k Hk. apply elem_of_dom in Hk. apply elem_of_dom.
  destruct (eval fuel e ls ns) as [o ns'] eqn:E.
  exact (eval_ast_keeps_keys _ _ fuel _ _ _ _ _ k E Hk).
Qed.

(** X17: an expression in which no [set] occurs leaves the namespace
    exactly as it was, whether it returns, raises or runs on; blocks and
    the zero test of a division included. *)
Theorem expression_without_set_is_read_only
    (fuel : nat) (e : AST) (ls ns : env) :
  set_free e = true -> snd (eval fuel e ls ns) = ns.
Proof. apply eval_ast_read_only. Qed.

(** X18: adding bindings does not change a value: an expression that
    returns [v] under a lexical scope and a namespace returns [v] under
    every larger scope and namespace, and leaves a namespace that
    contains the one it left before. *)
Theorem value_survives_larger_environment
    (fuel : nat) (e : AST) (ls ls' ns ns' : env) (v : Value) (ns1 : env) :
  ls ⊆ ls' -> ns ⊆ ns' ->
  eval fuel e ls ns = (Return v, ns1) ->
  exists ns1', eval fuel e ls' ns' = (Return v, ns1') /\ ns1 ⊆ ns1'.
Proof. apply eval_ast_weakens. Qed.

(** X19: a divisor that passed the zero test has, under the actual
    environment, the very value that was tested; so once the dividend has
    returned, the division returns the quotient by that value or raises
    Python's [TypeError], and Python's own [ZeroDivisionError] is never
    raised by the quotient. *)
Theorem tested_divisor_is_the_divisor
    (fuel : nat) (l r : AST) (ls ns : env)
    (d : Value) (ns0 : env) (a : Value) (ns1 : env) :
  eval fuel r ∅ ∅ = (Return d, ns0) ->
  py_eq d zero = false ->
  eval fuel l ls ns = (Return a, ns1) ->
  exists ns2,
    eval fuel r ls ns1 = (Return d, ns2)
    /\ eval (S fuel) (binary_operation "/" l r) ls ns
       = (of_result (py_div a d), ns2)
    /\ ((exists q, py_div a d = inr (VFraction q)) \/ py_div a d = inl TypeError).
Proof.
  intros Htest Hd Hl.
  destruct (eval_ast_weakens fuel r ∅ ls ∅ ns1 d ns0) as (ns2 & Hr & _);
    [apply map_empty_subseteq..|done|].
  exists ns2. split; [done|]. split.
  - cbn [eval_ast]. simpl String.eqb. cbv iota. rewrite Htest, Hd.
    unfold eval_operands. by rewrite Hl, Hr.
  - unfold py_div, py_eq in *.
    destruct (as_number a), (as_number d) as [y|]; eauto.
    change (as_number zero) with (Some (Q2Qc 0)) in Hd. cbv iota in Hd.
    rewrite Hd. eauto.
Qed.

(** X20: what [set] writes, [get] reads: when the value expression
    returns [v], [set(x, value)] returns zero and leaves a namespace in
    which [get(x)] returns [v] and every other variable reads as it did
    after the value expression. *)
Theorem set_then_get
    (fuel : nat) (x : string) (value : AST) (ls ns : env) (v : Value) (ns1 : env) :
  eval fuel value ls ns = (Return v, ns1) ->
  exists ns2,
    eval (S fuel) (set x value) ls ns = (Return zero, ns2)
    /\ (forall fuel' ls', eval (S fuel') (get x) ls' ns2 = (Return v, ns2))
    /\ (forall y fuel' ls',
          y <> x ->
          fst (eval (S fuel') (get y) ls' ns2) = fst (eval (S fuel') (get y) ls' ns1)).
Proof.
  intros H. exists (<[x := v]> ns1). split; [|split].
  - cbn [eval_ast]. by rewrite H.
  - intros fuel' ls'. cbn [eval_ast]. by rewrite lookup_insert_eq.
  - intros y fuel' ls' Hy. cbn [eval_ast]. rewrite lookup_insert_ne by done.
    by destruct (ns1 !! y).
Qed.

(** *** Loops *)

(** X21: a loop whose condition is the literal [True] never returns: it
    raises an error of its body or runs on, whatever the body, the scope,
    the namespace and the fuel. *)
Theorem while_true_never_returns
    (fuel : nat) (body : AST) (ls : env) :
  forall ns : env,
    fst (eval fuel (while_loop (bool_literal true) body) ls ns) = OutOfFuel
    \/ exists e, fst (eval fuel (while_loop (bool_literal true) body) ls ns) = Raise e.
Proof.
  induction fuel as [|fuel IH]; intros ns; [by left|].
  cbn [eval_ast]. destruct fuel as [|fuel]; [by left|].
  change (eval (S fuel) (bool_literal true) ls ns) with (Return (VBool true), ns).
  cbv iota. cbn [truthy].
  destruct (eval (S fuel) body ls ns) as [[v| |] ns1]; [apply IH|right; eauto|by left].
Qed.

(** X22: a loop that returns returns zero, and the namespace it leaves is
    the one left by an evaluation of its condition to a falsy value. *)
Theorem while_returns_zero_when_condition_fails
    (fuel : nat) (condition body : AST) (ls : env) :
  forall (ns : env) (v : Value) (ns' : env),
    eval fuel (while_loop condition body) ls ns = (Return v, ns') ->
    v = zero
    /\ exists fuel0 ns0 c,
         eval fuel0 condition ls ns0 = (Return c, ns') /\ truthy c = false.
Proof.
  induction fuel as [|fuel IH]; intros ns v ns'; [done|].
  cbn [eval_ast].
  destruct (eval fuel condition ls ns) as [[c| |] nsc] eqn:Ec; try done.
  destruct (truthy c) eqn:Hc.
  - destruct (eval fuel body ls nsc) as [[b| |] nsb]; try done. apply IH.
  - intros [= <- <-]. split; [done|]. by exists fuel, ns, c.
Qed.

(** *** Operators *)

(** X23: an operator the evaluator has no case for raises the exception
    of [ProgramNotSupported] at once: neither operand is evaluated and the
    namespace is left as it was. *)
Theorem unknown_operator_is_not_supported
    (fuel : nat) (operator : string) (l r : AST) (operands : Operands)
    (start stop hop : Z) (ls ns : env) :
  (operator ∉ binary_operators ->
     eval (S fuel) (binary_operation operator l r) ls ns
     = (Raise ProgramNotSupported, ns))
  /\ (operator ∉ string_operators ->
     eval (S fuel) (string_operation operator operands start stop hop) ls ns
     = (Raise ProgramNotSupported, ns)).
Proof.
  split; intros Hop; cbn [eval_ast];
    repeat match goal with
    | |- context [String.eqb operator ?s] =>
        let E := fresh "E" in
        destruct (String.eqb_spec operator s) as [E|E];
        [ exfalso; apply Hop; rewrite E; by apply (bool_decide_unpack _) | ]
    end; reflexivity.
Qed.

(** X24: [!=] is the negation of [==]: on the same operands, scope and
    namespace, [!=] returns the negated boolean of [==] with the same
    namespace, and where [==] raises or runs out so does [!=], alike. *)
Theorem not_equal_negates_equal
    (fuel : nat) (l r : AST) (ls ns : env) :
  eval (S fuel) (binary_operation "!=" l r) ls ns
  = match eval (S fuel) (binary_operation "==" l r) ls ns with
    | (Return (VBool b), ns') => (Return (VBool (negb b)), ns')
    | other => other
    end.
Proof.
  cbn [eval_ast]. simpl String.eqb. cbv iota. unfold eval_operands.
  destruct (eval fuel l ls ns) as [[a| |] ns1]; try reflexivity.
  destruct (eval fuel r ls ns1) as [[b| |] ns2]; reflexivity.
Qed.

(** *** Strings *)

Lemma concat_cons (x : string) (xs : list string) :
  String.concat "" (x :: xs) = x ++ String.concat "" xs.
Proof. destruct xs; cbn [String.concat]; [by rewrite append_nil_r|done]. Qed.

Lemma eval_concat_literals ev (l : list string) :
  (forall x (ls ns : env), ev (string_literal x) ls ns = (Return (VStr x), ns)) ->
  forall (s : string) (ls ns : env),
    eval_concat ev (map string_literal l) s ls ns
    = (Return (VStr (s ++ String.concat "" l)), ns).
Proof.
  intros Hev. induction l as [|x xs IH]; intros s ls ns; cbn [map eval_concat].
  - by rewrite append_nil_r.
  - rewrite Hev. cbn [py_concat]. by rewrite IH, concat_cons, append_assoc.
Qed.

(** X25: [concat] on string literals returns their values joined in
    order, the empty string for no operand, and leaves the namespace as
    it was; [start], [stop] and [hop] play no part. *)
Theorem concat_joins_string_literals
    (fuel : nat) (l : list string) (start stop hop : Z) (ls ns : env) :
  eval_ast Fraction_of_str Fraction_of_float_pow (S (S fuel))
       (string_operation "concat" (operand_list (map string_literal l)) start stop hop)
       ls ns
  = (Return (VStr (String.concat "" l)), ns).
Proof.
  cbn [eval_ast]. simpl String.eqb. cbv iota.
  by rewrite eval_concat_literals.
Qed.

End EvaluatorMore.

(** * Closed runs of the further properties *)

Lemma prev_char_undoes_next_char_witness :
  prev_char {| source := "ab"; pos := 1 |} = inr (streamFromString "ab").
Proof.
  apply (prev_char_undoes_next_char (streamFromString "ab") "a"). reflexivity.
Defined.

Lemma next_token_advances_witness :
  source (stream (reading "12" " + x" None)) = source (stream (fresh "12 + x"))
  /\ save (reading "12" " + x" None) = save (fresh "12 + x")
  /\ pos (stream (fresh "12 + x")) < pos (stream (reading "12" " + x" None))
  /\ pos (stream (reading "12" " + x" None))
     <= String.length (source (stream (fresh "12 + x"))).
Proof.
  apply (next_token_advances 5 (fresh "12 + x") (Some (Num 12))). reflexivity.
Defined.



Lemma peek_token_idempotent_witness :
  peek_token 7 (with_save (reading "1" " 2" None) (Some (Num 1)))
  = Got (Some (Num 1)) (with_save (reading "1" " 2" None) (Some (Num 1))).
Proof.
  apply (peek_token_idempotent 5 7 (fresh "1 2")). reflexivity.
Defined.

Lemma peek_then_advance_is_next_token_witness :
  peek_token 5 (fresh "1 2")
  = Got (Some (Num 1)) (with_save (reading "1" " 2" None) (Some (Num 1)))
  /\ advance 5 (with_save (reading "1" " 2" None) (Some (Num 1)))
     = Got tt (reading "1" " 2" None).
Proof.
  apply (peek_then_advance_is_next_token 5 5 (fresh "1 2")); reflexivity.
Defined.

Lemma match_consumes_or_keeps_witness :
  match_ 5 (fresh "if x") (Keyword "then")
  = Fail TokenError (with_save (reading "if" " x" None) (Some (Keyword "if")))
  /\ peek_token 5 (with_save (reading "if" " x" None) (Some (Keyword "if")))
     = Got (Some (Keyword "if")) (with_save (reading "if" " x" None) (Some (Keyword "if"))).
Proof.
  exact (match_consumes_or_keeps 5 (fresh "if x") (Keyword "if") (Keyword "then")
           (reading "if" " x" None) eq_refl eq_refl).
Defined.



Lemma next_token_skips_white_space_witness :
  next_token (3 + 2) (fresh (String " " (String tab (String newline "7"))))
  = next_token 2 (reading (String " " (String tab (String newline ""))) "7" None).
Proof.
  exact (next_token_skips_white_space 2 (String " " (String tab (String newline "")))
           "" "7" None eq_refl).
Defined.

Lemma string_reads_to_closing_quote_witness :
  next_token 5 (fresh (String dquote ("a\b" ++ String dquote ";")))
  = Got (Some (String_ "a\b"))
        (reading (String dquote ("a\b" ++ str dquote)) ";" None).
Proof.
  exact (string_reads_to_closing_quote 5 "" "a\b" ";" None eq_refl (le_n 5)).
Defined.

Lemma one_character_operator_witness :
  next_token 1 (fresh "**") = Got (Some (Operator "*")) (reading "*" "*" None).
Proof.
  apply (one_character_operator 0 "" "*" "*" None).
  - by apply (bool_decide_unpack _).
  - by apply (bool_decide_unpack _).
Defined.

Lemma two_character_operator_witness :
  next_token 1 (fresh "^^2") = Got (Some (Operator "**")) (reading "^^" "2" None)
  /\ forall e : ascii,
       e <> "^"%char ->
       next_token 1 (fresh (String "^" (String e "2")))
       = Got (Some (Operator "^")) (reading "^" (String e "2") None).
Proof.
  apply (two_character_operator 0 "" "^" "^" "**" "2" None).
  by apply (bool_decide_unpack _).
Defined.

Lemma operator_at_end_of_text_is_lost_witness :
  next_token 1 (reading "x " "=" None) = Fail EndOfTokens (at_end "x =" None).
Proof.
  apply (operator_at_end_of_text_is_lost 0 "x " "=" None).
  by apply (bool_decide_unpack _).
Defined.

(** A division by zero inside a block, on a namespace with [x]. *)
Lemma expression_without_set_is_read_only_witness :
  snd (eval0 4 (block [binary_operation "/" (get "x") (num 0)]) ∅ {["x" := fraction 1]})
  = {["x" := fraction 1]}.
Proof.
  apply (expression_without_set_is_read_only
           no_Fraction_of_str no_Fraction_of_float_pow).
  reflexivity.
Defined.

Lemma value_survives_larger_environment_witness :
  exists ns1',
    eval0 3 (binary_operation "+" (let_var "a") (get "x"))
          (<["b" := fraction 7]> {["a" := fraction 1]})
          (<["y" := fraction 9]> {["x" := fraction 2]})
    = (Return (fraction 3), ns1')
    /\ ({["x" := fraction 2]} : gmap string Value) ⊆ ns1'.
Proof.
  apply (value_survives_larger_environment
           no_Fraction_of_str no_Fraction_of_float_pow 3
           (binary_operation "+" (let_var "a") (get "x"))
           {["a" := fraction 1]} (<["b" := fraction 7]> {["a" := fraction 1]})
           {["x" := fraction 2]} (<["y" := fraction 9]> {["x" := fraction 2]})).
  - by apply insert_subseteq.
  - by apply insert_subseteq.
  - vm_compute. reflexivity.
Defined.

(** The divisor [let y = 2 in y], tested to be 2 under the empty
    environment. *)
Lemma tested_divisor_is_the_divisor_witness :
  exists ns2,
    eval0 2 (let_ "y" (num 2) (let_var "y")) ∅ {["x" := fraction 6]}
    = (Return (fraction 2), ns2)
    /\ eval0 3 (binary_operation "/" (get "x") (let_ "y" (num 2) (let_var "y")))
             ∅ {["x" := fraction 6]}
       = (of_result (py_div (fraction 6) (fraction 2)), ns2)
    /\ ((exists q, py_div (fraction 6) (fraction 2) = inr (VFraction q))
        \/ py_div (fraction 6) (fraction 2) = inl TypeError).
Proof.
  apply (tested_divisor_is_the_divisor
           no_Fraction_of_str no_Fraction_of_float_pow 2
           (get "x") (let_ "y" (num 2) (let_var "y")) ∅ {["x" := fraction 6]}
           (fraction 2) ∅ (fraction 6) {["x" := fraction 6]});
    vm_compute; reflexivity.
Defined.

Lemma set_then_get_witness :
  exists ns2,
    eval0 2 (set "x" (num 5)) ∅ {["y" := fraction 1]} = (Return zero, ns2)
    /\ (forall fuel' ls', eval0 (S fuel') (get "x") ls' ns2 = (Return (fraction 5), ns2))
    /\ (forall y fuel' ls',
          y <> "x" ->
          fst (eval0 (S fuel') (get y) ls' ns2)
          = fst (eval0 (S fuel') (get y) ls' {["y" := fraction 1]})).
Proof.
  apply (set_then_get no_Fraction_of_str no_Fraction_of_float_pow 1 "x" (num 5)
           ∅ {["y" := fraction 1]} (fraction 5) {["y" := fraction 1]}).
  reflexivity.
Defined.

(** The loop [while i < 3: i = i + 1] from [i = 1]. *)
Lemma while_returns_zero_when_condition_fails_witness :
  zero = zero
  /\ exists fuel0 ns0 c,
       eval0 fuel0 (binary_operation "<" (get "i") (num 3)) ∅ ns0
       = (Return c, {["i" := fraction 3]})
       /\ truthy c = false.
Proof.
  apply (while_returns_zero_when_condition_fails
           no_Fraction_of_str no_Fraction_of_float_pow 6
           (binary_operation "<" (get "i") (num 3))
           (set "i" (binary_operation "+" (get "i") (num 1)))
           ∅ {["i" := fraction 1]} zero {["i" := fraction 3]}).
  vm_compute. reflexivity.
Defined.

Lemma unknown_operator_is_not_supported_witness :
  eval0 1 (binary_operation "%" (set "x" (num 1)) (num 2)) ∅ ∅
  = (Raise ProgramNotSupported, ∅)
  /\ eval0 1 (string_operation "upper" (operand_node (string_literal "a")) 0 0 1) ∅ ∅
     = (Raise ProgramNotSupported, ∅).
Proof.
  split.
  - apply (proj1 (unknown_operator_is_not_supported
                    no_Fraction_of_str no_Fraction_of_float_pow 0 "%"
                    (set "x" (num 1)) (num 2) (operand_list []) 0 0 1 ∅ ∅)).
    by apply (bool_decide_unpack _).
  - apply (proj2 (unknown_operator_is_not_supported
                    no_Fraction_of_str no_Fraction_of_float_pow 0 "upper"
                    (num 1) (num 2) (operand_node (string_literal "a")) 0 0 1 ∅ ∅)).
    by apply (bool_decide_unpack _).
Defined.
